(** * The trivia API backend ([flaskr/__init__.py]) as Rocq functions

    The seven route handlers of [create_app], the helper
    [get_common_category] and the two error handlers are embedded as
    functions over an explicit world (the two tables and the random source).
    The Python pieces they rely on (slicing, [str.lower], [Counter],
    [random.shuffle], exceptions and [try]/[except]) and the SQL operator
    [ILIKE] are written out below. *)

From Stdlib Require Import ZArith Ascii String List Permutation.
From stdpp Require Import gmap strings list sorting.

Local Open Scope Z_scope.

(** ** Python: exceptions *)

(** The exceptions that the handlers can meet.  All of them derive from
    [Exception], [HTTPException] (raised by [abort]) included, so a bare
    [except Exception] catches every one of them. *)
Inductive exn : Type :=
  | KeyError
  | IndexError
  | AssertionError
  | SQLAlchemyError
  | HTTPException (code : Z).

(** A computation that returns or raises. *)
Definition Exc (A : Type) : Type := exn + A.

(** [d[k]] on a member that may be missing. *)
Definition getitem {A : Type} (member : option A) : Exc A :=
  match member with
  | Some v => inr v
  | None => inl KeyError
  end.

(** ** Python: lists and strings *)

Module Py.

(** One bound of [l[start:stop]] for a list of length [n]: a negative bound
    counts from the end and both are clamped to [0 .. n]. *)
Definition slice_bound (n i : Z) : Z :=
  if i <? 0 then Z.max (i + n) 0 else Z.min i n.

(** [l[start:stop]] with step 1. *)
Definition slice {A : Type} (l : list A) (start stop : Z) : list A :=
  let n := Z.of_nat (length l) in
  let lo := slice_bound n start in
  let hi := slice_bound n stop in
  take (Z.to_nat (hi - lo)) (drop (Z.to_nat lo) l).

(** [str.lower] on ASCII text: the letters A to Z are mapped to a to z. *)
Definition lower_ascii (c : ascii) : ascii :=
  let n := N_of_ascii c in
  if ((65 <=? n) && (n <=? 90))%N then ascii_of_N (n + 32) else c.

Fixpoint lower (s : string) : string :=
  match s with
  | EmptyString => EmptyString
  | String c s' => String (lower_ascii c) (lower s')
  end.

(** [collections.Counter]: the keys in order of first occurrence, each with
    its count (a [dict] keeps insertion order). *)
Fixpoint counter_add (k : Z) (c : list (Z * nat)) : list (Z * nat) :=
  match c with
  | [] => [(k, 1%nat)]
  | (k', n) :: c' =>
      if k =? k' then (k', S n) :: c' else (k', n) :: counter_add k c'
  end.

Definition Counter (keys : list Z) : list (Z * nat) :=
  foldl (fun c k => counter_add k c) [] keys.

(** [max(items, key=itemgetter(1))]: the first item among those of greatest
    count. *)
Definition max_by_count (items : list (Z * nat)) : option (Z * nat) :=
  foldl (fun best kv =>
           match best with
           | None => Some kv
           | Some b => if (snd b <? snd kv)%nat then Some kv else Some b
           end) None items.

(** [c.most_common(1)], which is [heapq.nlargest(1, c.items(), key=count)]:
    a list of at most one item. *)
Definition most_common_1 (c : list (Z * nat)) : list (Z * nat) :=
  match max_by_count c with
  | Some kv => [kv]
  | None => []
  end.

(** [l[0]]. *)
Definition first {A : Type} (l : list A) : Exc A :=
  match l with
  | x :: _ => inr x
  | [] => inl IndexError
  end.

(** [random.shuffle]: the generator is a tape of draws; [randbelow n] reads
    one draw and reduces it below [n]. *)
Definition randbelow (n : nat) (tape : list nat) : nat * list nat :=
  (hd 0%nat tape mod n, tl tape)%nat.

(** [x[i], x[j] = x[j], x[i]]. *)
Definition swap {A : Type} (x : list A) (i j : nat) : list A :=
  match x !! i, x !! j with
  | Some xi, Some xj => <[j := xi]> (<[i := xj]> x)
  | _, _ => x
  end.

(** The loop [for i in reversed(range(1, len(x)))], entered at [i]. *)
Fixpoint shuffle_from {A : Type} (i : nat) (x : list A) (tape : list nat)
  : list A * list nat :=
  match i with
  | O => (x, tape)
  | S i' =>
      let '(j, tape') := randbelow (S i) tape in
      shuffle_from i' (swap x i j) tape'
  end.

Definition shuffle {A : Type} (x : list A) (tape : list nat)
  : list A * list nat :=
  shuffle_from (length x - 1) x tape.

End Py.

(** ** SQL: the [LIKE] and [ILIKE] operators *)

Module Sql.

(** [text LIKE pattern] with PostgreSQL's defaults: [%] matches any run of
    characters, [_] any one character, and a backslash makes the character
    after it literal.  A pattern that ends in a lone backslash is rejected by
    the server; [query_questions] closes every pattern with [%], so its
    patterns never end that way, and [like] answers [false] there. *)
Fixpoint like (pattern : list ascii) : list ascii -> bool :=
  match pattern with
  | [] => fun text => match text with [] => true | _ => false end
  | p :: pattern' =>
      if Ascii.eqb p "%" then
        fix star (text : list ascii) : bool :=
          like pattern' text
          || match text with
             | [] => false
             | _ :: text' => star text'
             end
      else if Ascii.eqb p "_" then
        fun text =>
          match text with
          | [] => false
          | _ :: text' => like pattern' text'
          end
      else if Ascii.eqb p "\" then
        match pattern' with
        | [] => fun _ => false
        | q :: pattern'' =>
            fun text =>
              match text with
              | [] => false
              | c :: text' => Ascii.eqb q c && like pattern'' text'
              end
        end
      else
        fun text =>
          match text with
          | [] => false
          | c :: text' => Ascii.eqb p c && like pattern' text'
          end
  end.

(** [text ILIKE pattern]: [LIKE] after folding the case of both sides.  The
    folding is that of [Py.lower] and [like] steps through bytes, so this is
    the operator on ASCII text; on other text the database folds and counts
    by its own encoding. *)
Definition ilike (text pattern : string) : bool :=
  like (list_ascii_of_string (Py.lower pattern))
       (list_ascii_of_string (Py.lower text)).

End Sql.

(** ** The persistence models ([models.py]) *)

#[local] Set Warnings "-register-all".

(** A value of a parsed JSON body, as far as [add_question] looks at it. *)
Inductive value : Type :=
  | VNone
  | VBool (b : bool)
  | VInt (z : Z)
  | VStr (s : string)
  | VList (items : list value)
  | VDict (members : list (string * value)).

(** Python truth value: [None], [False], [0] and the empty string, list and
    dict are falsy. *)
Definition truthy (v : value) : bool :=
  match v with
  | VNone => false
  | VBool b => b
  | VInt z => negb (z =? 0)
  | VStr s => negb (String.eqb s "")
  | VList items => match items with [] => false | _ => true end
  | VDict members => match members with [] => false | _ => true end
  end.

Module Category.
(** Modelled from the spec: the [Category] model of [models.py], which is
    not among the sources; a category has a unique id and a free-text
    label. *)
Record t : Type := mk { id : Z; type : string }.
End Category.

Module Formatted.
(** Modelled from the spec: the dict that [Question.format] returns, with
    the keys id, question, answer, category and difficulty. *)
Record t : Type := mk {
  id : Z;
  question : string;
  answer : string;
  category : Z;
  difficulty : Z
}.
End Formatted.

Module Question.
(** Modelled from the spec: the [Question] model of [models.py], which is
    not among the sources; a row has a server-assigned id, the question and
    answer texts, a category id and an integer difficulty. *)
Record t : Type := mk {
  id : Z;
  question : string;
  answer : string;
  category : Z;
  difficulty : Z
}.

(** Modelled from the spec: [Question.format] of [models.py], the row as
    the externally visible dict. *)
Definition format (q : t) : Formatted.t :=
  Formatted.mk (id q) (question q) (answer q) (category q) (difficulty q).

(** Modelled from the spec: the constructor of [models.py], by which
    [Question(question, answer, category, difficulty)] holds the members of
    the body until the object is inserted. *)
Record draft : Type := new {
  draft_question : value;
  draft_answer : value;
  draft_category : value;
  draft_difficulty : value
}.
End Question.

(** The relational store: the two tables and the sequence that assigns
    question ids. *)
Record Store : Type := {
  questions : list Question.t;
  questions_id_seq : Z;
  categories : list Category.t
}.

(** What a request runs against: the store and the random generator. *)
Record World : Type := { db : Store; rng : list nat }.

(** ** Handlers as computations over the world that return or raise *)

Definition M (A : Type) : Type := World -> Exc A * World.

Definition ret {A : Type} (a : A) : M A := fun w => (inr a, w).

Definition raise {A : Type} (e : exn) : M A := fun w => (inl e, w).

Definition bind {A B : Type} (c : M A) (k : A -> M B) : M B :=
  fun w =>
    match c w with
    | (inr a, w') => k a w'
    | (inl e, w') => (inl e, w')
    end.

Definition lift {A : Type} (r : Exc A) : M A := fun w => (r, w).

(** [try: body except Exception as ex: handler]. *)
Definition try_except {A : Type} (body : M A) (handler : exn -> M A) : M A :=
  fun w =>
    match body w with
    | (inr a, w') => (inr a, w')
    | (inl ex, w') => handler ex w'
    end.

(** [assert v]. *)
Definition assert (v : value) : M unit :=
  if truthy v then ret tt else raise AssertionError.

(** [flask.abort(code)]. *)
Definition abort {A : Type} (code : Z) : M A := raise (HTTPException code).

(** [print(ex)]: the console is not part of the world. *)
Definition print (ex : exn) : M unit := ret tt.

Declare Scope handler_scope.
Delimit Scope handler_scope with handler.
Notation "x <- c ;; k" := (bind c (fun x => k))
  (at level 100, c at next level, right associativity) : handler_scope.
Notation "c ;;; k" := (bind c (fun _ => k))
  (at level 100, right associativity) : handler_scope.
Local Open Scope handler_scope.

(** *** Queries *)

Definition id_le (q1 q2 : Question.t) : Prop :=
  Question.id q1 <= Question.id q2.

#[global] Instance id_le_dec : RelDecision id_le.
Proof. intros q1 q2. unfold id_le. apply Z_le_dec. Defined.

(** [Question.query.all()]: the rows in table order. *)
Definition Question_query_all : M (list Question.t) :=
  fun w => (inr (questions (db w)), w).

(** [Question.query.order_by(Question.id).all()]. *)
Definition Question_query_order_by_id_all : M (list Question.t) :=
  fun w => (inr (merge_sort id_le (questions (db w))), w).

(** [Question.query.get(question_id)]: the row of that primary key, or
    [None]. *)
Definition Question_query_get (question_id : Z) : M (option Question.t) :=
  fun w =>
    (inr (List.find (fun q => Question.id q =? question_id) (questions (db w))),
     w).

(** [Question.query.filter(Question.category == category_id).all()]. *)
Definition Question_query_filter_category (category_id : Z)
  : M (list Question.t) :=
  fun w =>
    (inr (List.filter (fun q => Question.category q =? category_id)
            (questions (db w))), w).

(** [Question.query.filter(Question.question.ilike(pattern)).all()]. *)
Definition Question_query_filter_ilike (pattern : string)
  : M (list Question.t) :=
  fun w =>
    (inr (List.filter (fun q => Sql.ilike (Question.question q) pattern)
            (questions (db w))), w).

(** [Category.query.all()]. *)
Definition Category_query_all : M (list Category.t) :=
  fun w => (inr (categories (db w)), w).

(** Modelled from the spec: [Question.insert] of [models.py].  The new row
    gets the next id of the sequence.  The data model names texts for
    question and answer and integers for category and difficulty, and bodies
    of that shape are what this definition is for; what the persistence layer
    does with other members (a number where a text is expected, an integer
    beyond the range of its column) is not described there; for them the
    definition reports a failure or stores the integer as it is, and no
    property below rests on that choice beyond the answer being 200 or 422
    and the store changing only with a 200. *)
Definition Question_insert (q : Question.draft) : M unit :=
  fun w =>
    match Question.draft_question q, Question.draft_answer q,
          Question.draft_category q, Question.draft_difficulty q with
    | VStr text, VStr ans, VInt cat, VInt diff =>
        let st := db w in
        let row := Question.mk (questions_id_seq st) text ans cat diff in
        (inr tt,
         {| db := {| questions := questions st ++ [row];
                     questions_id_seq := questions_id_seq st + 1;
                     categories := categories st |};
            rng := rng w |})
    | _, _, _, _ => (inl SQLAlchemyError, w)
    end.

(** Modelled from the spec: [Question.delete] of [models.py], which removes
    the row of this question from the table. *)
Definition Question_delete (q : Question.t) : M unit :=
  fun w =>
    let st := db w in
    (inr tt,
     {| db := {| questions :=
                   List.filter (fun r => negb (Question.id r =? Question.id q))
                     (questions st);
                 questions_id_seq := questions_id_seq st;
                 categories := categories st |};
        rng := rng w |}).

(** [random.shuffle(x)] on the generator of the world. *)
Definition random_shuffle {A : Type} (x : list A) : M (list A) :=
  fun w =>
    let '(x', tape') := Py.shuffle x (rng w) in
    (inr x', {| db := db w; rng := tape' |}).

(** ** Requests and responses *)

(** The body of [POST /questions]: a JSON object in which each of the four
    members may be missing. *)
Record AddBody : Type := {
  add_question_member : option value;
  add_answer_member : option value;
  add_category_member : option value;
  add_difficulty_member : option value
}.

(** The body of [POST /search]: a JSON object with, when present, a text
    under [search_term]. *)
Record SearchBody : Type := { search_term : option string }.

(** The body of [POST /quizzes]: a JSON object with, when present, a list of
    question ids under [previous_questions] and an object under
    [quiz_category] that may carry an integer [id]. *)
Record QuizCategory : Type := { quiz_category_id : option Z }.

Record QuizBody : Type := {
  previous_questions : option (list Z);
  quiz_category : option QuizCategory
}.

(** What [jsonify] is applied to, one constructor for each shape of body.
    The bodies of the route handlers carry ["success": True], [ErrorJson]
    carries ["success": False]. *)
Inductive Json : Type :=
  | CategoriesJson (categories : gmap Z string)
  | QuestionsJson (questions : list Formatted.t) (total_questions : nat)
      (categories : gmap Z string) (current_category : string)
  | DeletedJson (question_id : Z)
  | CreatedJson
  | MatchesJson (questions : list Formatted.t) (total_questions : nat)
      (current_category : string)
  | QuizJson (question : option Formatted.t)
  | ErrorJson (message : string).

(** What the client gets: a JSON body with a status, the framework's own page
    for an [HTTPException] that has no registered handler, or the server
    error that stands for an exception which left the handler. *)
Inductive Response : Type :=
  | Reply (status : Z) (body : Json)
  | DefaultPage (status : Z)
  | InternalServerError (ex : exn).

(** ** [flaskr/__init__.py] *)

Definition QUESTIONS_PER_PAGE : Z := 10.

(** The dict comprehension [{cat.id: cat.type.lower() for cat in cats}]: a
    later row with the same id replaces an earlier one. *)
Definition categories_dict (cats : list Category.t) : gmap Z string :=
  foldl (fun d cat => <[Category.id cat := Py.lower (Category.type cat)]> d)
    ∅ cats.

Definition get_common_category (categories : gmap Z string)
    (questions : list Formatted.t) : Exc string :=
  match questions with
  | [] => inr ""%string
  | _ :: _ =>
      let c := Py.Counter (map Formatted.category questions) in
      match Py.first (Py.most_common_1 c) with
      | inr (k, _) => getitem (categories !! k)
      | inl ex => inl ex
      end
  end.

Definition get_available_categories : M Json :=
  cats <- Category_query_all ;;
  let categories := categories_dict cats in
  if decide (categories = ∅) then abort 404
  else ret (CategoriesJson categories).

(** [page_arg] is what [request.args.get('page', 1, type=int)] finds before
    it applies the default: [None] when the parameter is missing or is not an
    integer. *)
Definition get_questions (page_arg : option Z) : M Json :=
  let page := default 1 page_arg in
  rows <- Question_query_order_by_id_all ;;
  let questions := map Question.format rows in
  cats <- Category_query_all ;;
  let categories := categories_dict cats in
  let start := (page - 1) * QUESTIONS_PER_PAGE in
  let end_ := start + QUESTIONS_PER_PAGE in
  let selected_questions := Py.slice questions start end_ in
  if (Z.of_nat (length selected_questions) =? 0) then abort 404
  else
    current_category <- lift (get_common_category categories selected_questions) ;;
    ret (QuestionsJson selected_questions (length questions) categories
           current_category).

Definition delete_question (question_id : Z) : M Json :=
  try_except
    (question <- Question_query_get question_id ;;
     match question with
     | None => abort 404
     | Some q =>
         Question_delete q ;;;
         ret (DeletedJson question_id)
     end)
    (fun ex => print ex ;;; abort 422).

Definition add_question (json : AddBody) : M Json :=
  try_except
    (q <- lift (getitem (add_question_member json)) ;;
     assert q ;;;
     a <- lift (getitem (add_answer_member json)) ;;
     assert a ;;;
     q <- lift (getitem (add_question_member json)) ;;
     a <- lift (getitem (add_answer_member json)) ;;
     c <- lift (getitem (add_category_member json)) ;;
     d <- lift (getitem (add_difficulty_member json)) ;;
     let question := Question.new q a c d in
     Question_insert question ;;;
     ret CreatedJson)
    (fun ex => print ex ;;; abort 422).

Definition query_questions (json : SearchBody) : M Json :=
  try_except
    (search_query <- lift (getitem (search_term json)) ;;
     rows <- Question_query_filter_ilike ("%" +:+ search_query +:+ "%") ;;
     let filtered_questions := map Question.format rows in
     cats <- Category_query_all ;;
     let categories := categories_dict cats in
     current_category <- lift (get_common_category categories filtered_questions) ;;
     ret (MatchesJson filtered_questions (length filtered_questions)
            current_category))
    (fun ex => abort 422).

Definition get_questions_by_category (category_id : Z) : M Json :=
  try_except
    (rows <- Question_query_filter_category category_id ;;
     let filtered_questions := map Question.format rows in
     cats <- Category_query_all ;;
     let categories := categories_dict cats in
     current_category <- lift (getitem (categories !! category_id)) ;;
     ret (MatchesJson filtered_questions (length filtered_questions)
            current_category))
    (fun ex => abort 404).

(** The loop [for q in category_questions] of [quiz]: the first row whose id
    is not in [previous_questions] ends it. *)
Fixpoint quiz_scan (previous_questions : gset Z)
    (category_questions : list Question.t) : Json :=
  match category_questions with
  | [] => QuizJson None
  | q :: rest =>
      if decide (Question.id q ∉ previous_questions)
      then QuizJson (Some (Question.format q))
      else quiz_scan previous_questions rest
  end.

Definition quiz (json : QuizBody) : M Json :=
  try_except
    (previous <- lift (getitem (previous_questions json)) ;;
     let previous_questions : gset Z := list_to_set previous in
     quiz_category <- lift (getitem (quiz_category json)) ;;
     category_id <- lift (getitem (quiz_category_id quiz_category)) ;;
     category_questions <-
       (if category_id =? 0 then Question_query_all
        else Question_query_filter_category category_id) ;;
     category_questions <- random_shuffle category_questions ;;
     ret (quiz_scan previous_questions category_questions))
    (fun ex => print ex ;;; abort 422).

(** The error handlers registered for 404 and 422. *)
Definition not_found : Response := Reply 404 (ErrorJson "Not Found").

Definition unprocessable : Response := Reply 422 (ErrorJson "Unprocessable").

(** What the framework makes of a handler's outcome: a returned body is sent
    with status 200, an [HTTPException] goes to the error handler registered
    for its code, every other exception is not handled by the application. *)
Definition respond (outcome : Exc Json) : Response :=
  match outcome with
  | inr body => Reply 200 body
  | inl (HTTPException 404) => not_found
  | inl (HTTPException 422) => unprocessable
  | inl (HTTPException code) => DefaultPage code
  | inl ex => InternalServerError ex
  end.

(** A request served in world [w]: the response and the world after it. *)
Definition serve (handler : M Json) (w : World) : Response * World :=
  let '(outcome, w') := handler w in (respond outcome, w').

(** *** Running a handler

    The operations of [M] and the queries are unfolded together when a
    handler is run on a world. *)

Create HintDb handler discriminated.

#[global] Hint Unfold
  ret raise bind lift try_except assert abort print
  Question_query_all Question_query_order_by_id_all Question_query_get
  Question_query_filter_category Question_query_filter_ilike
  Category_query_all random_shuffle : handler.

Ltac run_handler := autounfold with handler; cbn.

(** ** Notions used to state the properties *)

(** The list that [get_questions] pages through: the formatted rows in
    ascending order of id. *)
Definition ordered_questions (w : World) : list Formatted.t :=
  map Question.format (merge_sort id_le (questions (db w))).

(** The bounds of page [page]. *)
Definition page_start (page : Z) : Z := (page - 1) * QUESTIONS_PER_PAGE.

Definition page_end (page : Z) : Z := page_start page + QUESTIONS_PER_PAGE.

(** The slice of the ordered list that page [page] selects. *)
Definition page_slice (w : World) (page : Z) : list Formatted.t :=
  Py.slice (ordered_questions w) (page_start page) (page_end page).

(** The category mapping that the handlers build from the category table. *)
Definition category_mapping (w : World) : gmap Z string :=
  categories_dict (categories (db w)).

(** [needle] is a prefix of [hay]. *)
Fixpoint starts_with (needle hay : list ascii) : bool :=
  match needle, hay with
  | [], _ => true
  | _ :: _, [] => false
  | a :: needle', b :: hay' => Ascii.eqb a b && starts_with needle' hay'
  end.

(** [needle] occurs in [hay] as a run of consecutive characters. *)
Fixpoint contains (needle hay : list ascii) : bool :=
  starts_with needle hay
  || match hay with
     | [] => false
     | _ :: hay' => contains needle hay'
     end.

(** [term] is a substring of [text] when case is ignored. *)
Definition icontains (term text : string) : bool :=
  contains (list_ascii_of_string (Py.lower term))
           (list_ascii_of_string (Py.lower text)).

(** The characters that [LIKE] does not take literally. *)
Definition like_special (c : ascii) : bool :=
  Ascii.eqb c "%" || Ascii.eqb c "_" || Ascii.eqb c "\".

(** The answers that the two error handlers and the route handlers give:
    200 with a body, 404 Not Found or 422 Unprocessable. *)
Definition handled (r : Response) : Prop :=
  r = not_found \/ r = unprocessable \/ exists body, r = Reply 200 body.

(** The candidates of a quiz for [category_id]: every row for 0, the rows of
    that category otherwise. *)
Definition quiz_candidates (w : World) (category_id : Z) : list Question.t :=
  if category_id =? 0 then questions (db w)
  else List.filter (fun q => Question.category q =? category_id)
         (questions (db w)).

(** A quiz body with both members present. *)
Definition quiz_body (previous : list Z) (category_id : Z) : QuizBody :=
  {| previous_questions := Some previous;
     quiz_category := Some {| quiz_category_id := Some category_id |} |}.

(** [c] counts the items of [seen]: each key once, with the number of its
    occurrences, and no key that does not occur. *)
Definition counts_of (c : list (Z * nat)) (seen : list Z) : Prop :=
  NoDup c.*1
  /\ forall k n, (k, n) ∈ c <-> count_occ Z.eq_dec seen k = n /\ (0 < n)%nat.

(** The keys [ks] stand in the order in which they first occur in [seen]. *)
Definition first_occurrence_order (ks seen : list Z) : Prop :=
  forall c1 x c2,
    ks = c1 ++ x :: c2 ->
    exists pre post,
      seen = pre ++ x :: post /\ (x ∉ pre) /\ forall y, y ∈ c2 -> y ∉ pre.

(** A handler that leaves the world as it found it, whatever it answers. *)
Definition reads_only (handler : M Json) : Prop :=
  forall w, snd (serve handler w) = w.

(** A handler that leaves the world as it found it unless it answers 200. *)
Definition quiet_on_error (handler : M Json) : Prop :=
  forall w,
    (forall body, fst (serve handler w) <> Reply 200 body) ->
    snd (serve handler w) = w.

(** The answer of [POST /search] when the rows [rows] are the matches. *)
Definition search_answer (w : World) (rows : list Question.t) : Response :=
  let matches := map Question.format rows in
  match get_common_category (category_mapping w) matches with
  | inr label => Reply 200 (MatchesJson matches (length matches) label)
  | inl _ => unprocessable
  end.

(** The questions that an answer of [GET /questions] carries; none when the
    answer is not a listing. *)
Definition answer_questions (r : Response) : list Formatted.t :=
  match r with
  | Reply _ (QuestionsJson questions _ _ _) => questions
  | _ => []
  end.


(** ** Sample worlds *)

(** A question of category [category] with id [id]. *)
Definition sample_question (id category : Z) : Question.t :=
  Question.mk id "What is the title of the 1990 film about Edward?"
    "Edward Scissorhands" category 3.

Definition sample_categories : list Category.t :=
  [Category.mk 1 "Science"; Category.mk 2 "Art"].

(** Three questions, stored out of id order, in two known categories. *)
Definition small_world : World :=
  {| db := {| questions := [sample_question 3 1; sample_question 1 2;
                            sample_question 2 1];
              questions_id_seq := 4;
              categories := sample_categories |};
     rng := [5; 7; 1]%nat |}.

(** Twelve questions of category 1, with ids 1 to 12. *)
Definition twelve_world : World :=
  {| db := {| questions :=
                map (fun i => sample_question (Z.of_nat i) 1) (seq 1 12);
              questions_id_seq := 13;
              categories := sample_categories |};
     rng := [] |}.

(** Thirty questions of category 2, with ids 1 to 30. *)
Definition thirty_world : World :=
  {| db := {| questions :=
                map (fun i => sample_question (Z.of_nat i) 2) (seq 1 30);
              questions_id_seq := 31;
              categories := sample_categories |};
     rng := [] |}.

(** One question whose category, 99, is no row of the category table: the
    state after [POST /questions] with ["category": 99] on an empty question
    table. *)
Definition dangling_world : World :=
  {| db := {| questions := [sample_question 1 99];
              questions_id_seq := 2;
              categories := sample_categories |};
     rng := [] |}.

(** Ten questions of category 1 with ids 1 to 10, and an eleventh of
    category 99, which is no row of the category table. *)
Definition eleven_world : World :=
  {| db := {| questions :=
                map (fun i => sample_question (Z.of_nat i) 1) (seq 1 10)
                ++ [sample_question 11 99];
              questions_id_seq := 12;
              categories := sample_categories |};
     rng := [] |}.

(** A body for [POST /questions] that names category 99. *)
Definition dangling_body : AddBody :=
  {| add_question_member :=
       Some (VStr "What is the title of the 1990 film about Edward?");
     add_answer_member := Some (VStr "Edward Scissorhands");
     add_category_member := Some (VInt 99);
     add_difficulty_member := Some (VInt 3) |}.

(** No question yet. *)
Definition empty_world : World :=
  {| db := {| questions := [];
              questions_id_seq := 1;
              categories := sample_categories |};
     rng := [] |}.

(** ** Python slices *)

Lemma slice_length_le {A : Type} (l : list A) (start stop : Z) :
  0 <= stop - start ->
  (length (Py.slice l start stop) <= Z.to_nat (stop - start))%nat.
Proof.
  intros Hle. unfold Py.slice, Py.slice_bound.
  rewrite length_take.
  destruct (start <? 0) eqn:Hs; destruct (stop <? 0) eqn:Ht; lia.
Qed.

Lemma slice_nonneg {A : Type} (l : list A) (start len : Z) :
  0 <= start -> 0 <= len ->
  Py.slice l start (start + len)
  = take (Z.to_nat len) (drop (Z.to_nat start) l).
Proof.
  intros Hs Hl. unfold Py.slice, Py.slice_bound.
  assert ((start <? 0) = false) as -> by lia.
  assert ((start + len <? 0) = false) as -> by lia.
  set (n := Z.of_nat (length l)).
  destruct (Z.le_gt_cases n start) as [Hout | Hin].
  - rewrite (drop_ge l (Z.to_nat (Z.min start n))) by lia.
    rewrite (drop_ge l (Z.to_nat start)) by lia.
    by rewrite !take_nil.
  - replace (Z.min start n) with start by lia.
    destruct (Z.le_gt_cases (start + len) n) as [Hfit | Hcut].
    + f_equal. lia.
    + rewrite !take_ge; [done | rewrite length_drop; lia ..].
Qed.

Lemma slice_before_zero {A : Type} (l : list A) (start : Z) :
  start <= 0 -> Py.slice l start 0 = [].
Proof.
  intros Hs. unfold Py.slice, Py.slice_bound.
  assert ((0 <? 0) = false) as -> by lia.
  replace (Z.to_nat _) with 0%nat; [done |].
  destruct (start <? 0) eqn:E; lia.
Qed.

Lemma slice_negative {A : Type} (l : list A) (start len : Z) :
  0 < len -> start + len < 0 -> - (start + len) < Z.of_nat (length l) ->
  exists pre suf,
    l = pre ++ Py.slice l start (start + len) ++ suf
    /\ Z.of_nat (length suf) = - (start + len)
    /\ Py.slice l start (start + len) <> [].
Proof.
  intros Hlen Hneg Hn.
  set (n := Z.of_nat (length l)) in *.
  set (lo := Z.to_nat (Z.max (start + n) 0)).
  set (hi := Z.to_nat (start + len + n)).
  assert (Py.slice l start (start + len) = take (hi - lo) (drop lo l)) as ->.
  { unfold Py.slice, Py.slice_bound. fold n.
    assert ((start <? 0) = true) as -> by lia.
    assert ((start + len <? 0) = true) as -> by lia.
    fold lo. f_equal. lia. }
  exists (take lo l), (drop hi l). split; [| split].
  - rewrite <- (take_drop lo l) at 1. f_equal.
    rewrite <- (take_drop (hi - lo) (drop lo l)) at 1. f_equal.
    rewrite drop_drop. f_equal. lia.
  - rewrite length_drop. lia.
  - intros Hnil. apply (f_equal length) in Hnil.
    rewrite length_take, length_drop in Hnil. simpl in Hnil. lia.
Qed.

(** [list(range(1, 16))[-20:-10]], [[-3:100]], [[12:3]] and [[-10:0]]. *)
Example slice_examples :
  let l := map Z.of_nat (seq 1 15) in
  Py.slice l (-20) (-10) = [1; 2; 3; 4; 5]
  /\ Py.slice l (-3) 100 = [13; 14; 15]
  /\ Py.slice l 12 3 = []
  /\ Py.slice l (-10) 0 = [].
Proof. repeat split. Qed.

(** ** The most common category *)

Lemma counter_add_keys (k : Z) (c : list (Z * nat)) (x : Z) :
  x ∈ (Py.counter_add k c).*1 <-> x = k \/ x ∈ c.*1.
Proof.
  induction c as [| [k' n] c IH]; cbn.
  - rewrite list_elem_of_singleton. split; [auto |].
    intros [H | H]; [done | by apply elem_of_nil in H].
  - destruct (Z.eqb_spec k k') as [-> | Hne]; cbn.
    + rewrite elem_of_cons. tauto.
    + rewrite !elem_of_cons, IH. tauto.
Qed.

Lemma Counter_keys_from (keys : list Z) (c : list (Z * nat)) (x : Z) :
  x ∈ (foldl (fun c k => Py.counter_add k c) c keys).*1
  <-> x ∈ c.*1 \/ x ∈ keys.
Proof.
  revert c. induction keys as [| k keys IH]; intros c; cbn.
  - split; [auto |]. intros [H | H]; [done | by apply elem_of_nil in H].
  - rewrite IH, counter_add_keys, elem_of_cons. tauto.
Qed.

(** The keys of a counter are the items counted. *)
Lemma Counter_keys (keys : list Z) (x : Z) :
  x ∈ (Py.Counter keys).*1 <-> x ∈ keys.
Proof.
  unfold Py.Counter. rewrite Counter_keys_from. cbn.
  split; [| auto]. intros [H | H]; [by apply elem_of_nil in H | done].
Qed.

Lemma max_by_count_from (items : list (Z * nat)) (best : option (Z * nat)) :
  match foldl (fun best kv =>
                 match best with
                 | None => Some kv
                 | Some b => if (snd b <? snd kv)%nat then Some kv else Some b
                 end) best items with
  | Some kv => best = Some kv \/ kv ∈ items
  | None => best = None /\ items = []
  end.
Proof.
  revert best. induction items as [| kv items IH]; intros best; cbn [foldl].
  - destruct best; auto.
  - match goal with |- context [foldl _ ?b items] => specialize (IH b) end.
    destruct (foldl _ _ items) as [r |].
    + destruct IH as [IH | IH]; [| right; by right].
      destruct best as [b |].
      * destruct (snd b <? snd kv)%nat; inversion IH; subst;
          [right; by left | by left].
      * inversion IH; subst. right. by left.
    + destruct IH as [IH _]. destruct best as [b |]; [| done].
      by destruct (snd b <? snd kv)%nat.
Qed.

(** [most_common(1)] of a counter that is not empty is one of its items. *)
Lemma most_common_1_elem (c : list (Z * nat)) :
  c <> [] -> exists kv, Py.most_common_1 c = [kv] /\ kv ∈ c.
Proof.
  intros Hne. unfold Py.most_common_1, Py.max_by_count.
  pose proof (max_by_count_from c None) as H.
  destruct (foldl _ None c) as [kv |].
  - exists kv. split; [done |]. by destruct H.
  - by destruct H.
Qed.

(** The frequency lookup succeeds when the category of every question of
    the list is a key of the mapping. *)
Lemma get_common_category_total (cats : gmap Z string)
    (qs : list Formatted.t) :
  (forall q, q ∈ qs -> is_Some (cats !! Formatted.category q)) ->
  exists label, get_common_category cats qs = inr label.
Proof.
  intros Hkeys. destruct qs as [| q qs]; [by exists ""%string |].
  unfold get_common_category.
  destruct (most_common_1_elem
              (Py.Counter (map Formatted.category (q :: qs))))
    as ([k n] & -> & Hin).
  - intros Hnil.
    assert (Formatted.category q
            ∈ (Py.Counter (map Formatted.category (q :: qs))).*1) as H
      by (apply Counter_keys; left).
    rewrite Hnil in H. by apply elem_of_nil in H.
  - cbn [Py.first].
    assert (k ∈ map Formatted.category (q :: qs)) as Hk.
    { apply Counter_keys. apply list_elem_of_fmap. by exists (k, n). }
    apply list_elem_of_fmap in Hk as (q' & -> & Hq').
    destruct (Hkeys q' Hq') as [label Hlabel].
    exists label. by rewrite Hlabel.
Qed.

(** [Counter([3, 1, 1, 3, 2]).most_common(1)] is [[(3, 2)]]: of the two keys
    counted twice, the one met first. *)
Example most_common_first_of_ties :
  Py.most_common_1 (Py.Counter [3; 1; 1; 3; 2]) = [(3, 2%nat)].
Proof. reflexivity. Qed.

(** What the frequency lookup can raise is [KeyError]. *)
Lemma get_common_category_raises (cats : gmap Z string)
    (qs : list Formatted.t) (ex : exn) :
  get_common_category cats qs = inl ex -> ex = KeyError.
Proof.
  destruct qs as [| q qs]; [done |]. unfold get_common_category.
  destruct (most_common_1_elem
              (Py.Counter (map Formatted.category (q :: qs))))
    as ([k n] & -> & _).
  - intros Hnil.
    assert (Formatted.category q
            ∈ (Py.Counter (map Formatted.category (q :: qs))).*1) as H
      by (apply Counter_keys; left).
    rewrite Hnil in H. by apply elem_of_nil in H.
  - cbn [Py.first]. destruct (cats !! k); cbn; congruence.
Qed.

(** ** Question listing *)

(** [get_questions] in one equation: an empty slice aborts with 404, the
    frequency lookup may raise, and the world is only read. *)
Lemma get_questions_run (w : World) (page_arg : option Z) :
  get_questions page_arg w
  = match page_slice w (default 1 page_arg) with
    | [] => (inl (HTTPException 404), w)
    | q :: sel =>
        match get_common_category (category_mapping w) (q :: sel) with
        | inr label =>
            (inr (QuestionsJson (q :: sel) (length (ordered_questions w))
                    (category_mapping w) label), w)
        | inl ex => (inl ex, w)
        end
    end.
Proof.
  unfold get_questions, page_slice, page_start, page_end, ordered_questions,
    category_mapping, bind, Question_query_order_by_id_all, Category_query_all,
    abort, raise, lift, ret.
  destruct (Py.slice _ _ _) as [| q sel]; [done |].
  cbn [length Z.of_nat Z.eqb].
  by destruct (get_common_category _ _).
Qed.

Lemma ordered_questions_length (w : World) :
  length (ordered_questions w) = length (questions (db w)).
Proof.
  unfold ordered_questions. rewrite length_map.
  apply Permutation_length, merge_sort_Permutation.
Qed.

#[local] Instance id_le_trans : Transitive id_le.
Proof. unfold id_le. intros x y z. lia. Qed.

#[local] Instance id_le_total : Total id_le.
Proof. unfold id_le. intros x y. lia. Qed.

(** The paged list holds the rows of the table, each once, in ascending
    order of id. *)
Lemma ordered_questions_sorted (w : World) :
  exists rows,
    ordered_questions w = map Question.format rows
    /\ rows ≡ₚ questions (db w)
    /\ StronglySorted id_le rows.
Proof.
  exists (merge_sort id_le (questions (db w))). split; [done | split].
  - apply merge_sort_Permutation.
  - apply StronglySorted_merge_sort; apply _.
Qed.

(** On pages from 1 on, the slice is the next ten items after the
    [(page - 1) * 10] first ones, or what is left of them. *)
Lemma page_slice_positive (w : World) (page : Z) :
  1 <= page ->
  page_slice w page
  = take 10 (drop (Z.to_nat ((page - 1) * 10)) (ordered_questions w)).
Proof.
  intros Hp. unfold page_slice, page_end, page_start, QUESTIONS_PER_PAGE.
  rewrite slice_nonneg by lia. done.
Qed.

(** A page holds at most ten questions, and exactly ten when a later page is
    not empty. *)
Lemma page_slice_size (w : World) (page : Z) :
  1 <= page ->
  (length (page_slice w page) <= 10)%nat
  /\ (page_slice w (page + 1) <> [] -> length (page_slice w page) = 10%nat).
Proof.
  intros Hp. rewrite !page_slice_positive by lia. split.
  - rewrite length_take. lia.
  - intros Hnext. rewrite length_take, length_drop.
    destruct (decide (length (ordered_questions w)
                      <= Z.to_nat ((page + 1 - 1) * 10))%nat) as [Hle | Hgt].
    + exfalso. apply Hnext. by rewrite drop_ge, take_nil.
    + lia.
Qed.

(** Pagination of [GET /questions] wherever the category of the page can be
    named: from page 1 on, a non-empty slice is returned as it is, with the
    count of all questions. *)
Lemma get_questions_page (w : World) (page : Z) (label : string) :
  1 <= page ->
  page_slice w page <> [] ->
  get_common_category (category_mapping w) (page_slice w page) = inr label ->
  serve (get_questions (Some page)) w
  = (Reply 200
       (QuestionsJson (page_slice w page) (length (questions (db w)))
          (category_mapping w) label), w)
  /\ page_slice w page
     = take 10 (drop (Z.to_nat ((page - 1) * 10)) (ordered_questions w))
  /\ (length (page_slice w page) <= 10)%nat
  /\ (page_slice w (page + 1) <> [] -> length (page_slice w page) = 10%nat).
Proof.
  intros Hp Hne Hcat. split; [| split; [by apply page_slice_positive |
                                       by apply page_slice_size]].
  unfold serve. rewrite get_questions_run.
  change (default 1 (Some page)) with page.
  destruct (page_slice w page) as [| q sel] eqn:Hsel; [done |].
  rewrite Hcat. cbn. by rewrite ordered_questions_length.
Qed.

(** The questions of a slice are formatted rows of the table. *)
Lemma elem_of_page_slice (w : World) (page : Z) (q : Formatted.t) :
  q ∈ page_slice w page ->
  exists row, row ∈ questions (db w) /\ q = Question.format row.
Proof.
  unfold page_slice, Py.slice, ordered_questions. intros Hq.
  apply subseteq_take, subseteq_drop in Hq.
  apply list_elem_of_fmap in Hq as (row & -> & Hrow).
  exists row. split; [| done]. by rewrite merge_sort_Permutation in Hrow.
Qed.

(** Pagination of [GET /questions] on a store in which the category of every
    question is a category row: from page 1 on, a non-empty slice is what the
    answer holds, with the count of all questions. *)
Lemma get_questions_page_integrity (w : World) (page : Z) :
  (forall row, row ∈ questions (db w) ->
     is_Some (category_mapping w !! Question.category row)) ->
  1 <= page ->
  page_slice w page <> [] ->
  exists label,
    serve (get_questions (Some page)) w
    = (Reply 200
         (QuestionsJson (page_slice w page) (length (questions (db w)))
            (category_mapping w) label), w).
Proof.
  intros Hkeys Hp Hne.
  destruct (get_common_category_total (category_mapping w)
              (page_slice w page)) as [label Hlabel].
  - intros q Hq. apply elem_of_page_slice in Hq as (row & Hrow & ->).
    by apply Hkeys.
  - exists label. by apply get_questions_page.
Qed.

(** C9: when the slice that a page selects from the id-ordered questions is
    empty, [GET /questions] answers 404 Not Found; this is so for every page
    from 1 on that starts at or after the end of the list, that is, for every
    page beyond the last one that holds a question. *)
Theorem get_questions_empty_page_404 (w : World) (page_arg : option Z) :
  let page := default 1 page_arg in
  page_slice w page = []
  \/ (1 <= page /\ Z.of_nat (length (questions (db w))) <= (page - 1) * 10) ->
  serve (get_questions page_arg) w = (not_found, w).
Proof.
  intros page H.
  assert (page_slice w page = []) as Hnil.
  { destruct H as [H | [Hp Hlen]]; [done |].
    rewrite page_slice_positive by done.
    rewrite drop_ge; [done |]. rewrite ordered_questions_length. lia. }
  unfold serve. rewrite get_questions_run. fold page. by rewrite Hnil.
Qed.

Lemma get_questions_empty_page_404_witness :
  (1 <= 2 /\ Z.of_nat (length (questions (db small_world))) <= (2 - 1) * 10)
  /\ serve (get_questions (Some 2)) small_world = (not_found, small_world).
Proof.
  assert (1 <= 2 /\ Z.of_nat (length (questions (db small_world)))
                    <= (2 - 1) * 10) as H by (cbn; lia).
  split; [exact H |].
  apply (get_questions_empty_page_404 small_world (Some 2)). right. exact H.
Defined.

(** A negative page with enough questions behind it: the slice is counted
    from the end of the id-ordered list. *)
Lemma get_questions_negative_page (w : World) (page : Z) (label : string) :
  page < 0 ->
  - (10 * page) < Z.of_nat (length (questions (db w))) ->
  get_common_category (category_mapping w) (page_slice w page) = inr label ->
  serve (get_questions (Some page)) w
  = (Reply 200
       (QuestionsJson (page_slice w page) (length (questions (db w)))
          (category_mapping w) label), w)
  /\ page_slice w page <> []
  /\ exists before after,
       ordered_questions w = before ++ page_slice w page ++ after
       /\ Z.of_nat (length after) = - (10 * page).
Proof.
  intros Hneg Hmany Hcat.
  destruct (slice_negative (ordered_questions w) (page_start page) 10)
    as (before & after & Hsplit & Hafter & Hne).
  { lia. }
  { unfold page_start, QUESTIONS_PER_PAGE. lia. }
  { rewrite ordered_questions_length.
    unfold page_start, QUESTIONS_PER_PAGE. lia. }
  fold QUESTIONS_PER_PAGE in Hsplit, Hne.
  fold (page_end page) in Hsplit, Hne.
  fold (page_slice w page) in Hsplit, Hne.
  split; [| split; [done |]].
  - unfold serve. rewrite get_questions_run.
    change (default 1 (Some page)) with page.
    destruct (page_slice w page) as [| q sel]; [done |].
    rewrite Hcat. cbn. by rewrite ordered_questions_length.
  - exists before, after. split; [done |].
    rewrite Hafter. unfold page_start, QUESTIONS_PER_PAGE. lia.
Qed.

(** C10: page 0 selects the slice from -10 to 0, which is empty in every
    world, so the answer is 404.  A negative page selects from the end of the
    list: when more than [-10 * page] questions are stored and the category
    of the slice can be named, the answer is a success whose questions are a
    non-empty run of the id-ordered list that ends [-10 * page] places before
    its end.  So page -1 is answered with the questions of ids 11 to 20 when
    thirty are stored, and with those of ids 1 and 2 when twelve are. *)
Theorem get_questions_nonpositive_page :
  (forall w,
     page_start 0 = -10 /\ page_end 0 = 0 /\ page_slice w 0 = []
     /\ serve (get_questions (Some 0)) w = (not_found, w))
  /\ (forall w page label,
        page < 0 ->
        - (10 * page) < Z.of_nat (length (questions (db w))) ->
        get_common_category (category_mapping w) (page_slice w page)
        = inr label ->
        serve (get_questions (Some page)) w
        = (Reply 200
             (QuestionsJson (page_slice w page) (length (questions (db w)))
                (category_mapping w) label), w)
        /\ page_slice w page <> []
        /\ exists before after,
             ordered_questions w = before ++ page_slice w page ++ after
             /\ Z.of_nat (length after) = - (10 * page))
  /\ (exists ten,
        map Formatted.id ten = [11; 12; 13; 14; 15; 16; 17; 18; 19; 20]
        /\ serve (get_questions (Some (-1))) thirty_world
           = (Reply 200
                (QuestionsJson ten 30 (category_mapping thirty_world) "art"),
              thirty_world))
  /\ (exists two,
        map Formatted.id two = [1; 2]
        /\ serve (get_questions (Some (-1))) twelve_world
           = (Reply 200
                (QuestionsJson two 12 (category_mapping twelve_world)
                   "science"), twelve_world)).
Proof.
  split; [| split; [| split]].
  - intros w.
    assert (page_slice w 0 = []) as Hnil.
    { unfold page_slice. change (page_end 0) with 0.
      by apply slice_before_zero. }
    split; [done | split; [done | split; [done |]]].
    unfold serve. rewrite get_questions_run.
    change (default 1 (Some 0)) with 0. by rewrite Hnil.
  - apply get_questions_negative_page.
  - exists (page_slice thirty_world (-1)). split.
    + vm_compute. reflexivity.
    + destruct (get_questions_negative_page thirty_world (-1) "art")
        as (Hrun & _ & _).
      * lia.
      * cbn. lia.
      * vm_compute. reflexivity.
      * rewrite Hrun. reflexivity.
  - exists (page_slice twelve_world (-1)). split.
    + vm_compute. reflexivity.
    + destruct (get_questions_negative_page twelve_world (-1) "science")
        as (Hrun & _ & _).
      * lia.
      * cbn. lia.
      * vm_compute. reflexivity.
      * rewrite Hrun. reflexivity.
Qed.

(** ** The catch-all policy *)

(** A [try] whose [except] clause aborts with [code] returns or raises the
    [HTTPException] of that code, whatever its body does. *)
Lemma try_except_outcome {A : Type} (body : M A) (handler : exn -> M A)
    (code : Z) (w : World) :
  (forall ex w', handler ex w' = (inl (HTTPException code), w')) ->
  (exists a, fst (try_except body handler w) = inr a)
  \/ fst (try_except body handler w) = inl (HTTPException code).
Proof.
  intros Hhandler. unfold try_except.
  destruct (body w) as [[ex | a] w'].
  - right. by rewrite Hhandler.
  - left. by exists a.
Qed.

Lemma serve_handled (handler : M Json) (code : Z) (w : World) :
  code = 404 \/ code = 422 ->
  (exists body, fst (handler w) = inr body)
  \/ fst (handler w) = inl (HTTPException code) ->
  handled (fst (serve handler w)).
Proof.
  intros Hcode Hout. unfold serve, handled.
  destruct (handler w) as [out w']. cbn in *.
  destruct Hout as [[body ->] | ->].
  - right. right. by exists body.
  - destruct Hcode as [-> | ->]; [by left | right; by left].
Qed.

(** The handlers that have an [except] clause, and the category listing,
    answer every request with 200, 404 or 422. *)
Lemma guarded_handlers_handled (w : World) :
  handled (fst (serve get_available_categories w))
  /\ (forall question_id, handled (fst (serve (delete_question question_id) w)))
  /\ (forall json, handled (fst (serve (add_question json) w)))
  /\ (forall json, handled (fst (serve (query_questions json) w)))
  /\ (forall category_id,
        handled (fst (serve (get_questions_by_category category_id) w)))
  /\ (forall json, handled (fst (serve (quiz json) w))).
Proof.
  repeat split; intros.
  - apply (serve_handled _ 404); [by left |].
    unfold get_available_categories. run_handler.
    destruct (decide (_ = ∅)); [by right | left; eauto].
  - apply (serve_handled _ 422); [by right |].
    by apply try_except_outcome.
  - apply (serve_handled _ 422); [by right |].
    by apply try_except_outcome.
  - apply (serve_handled _ 422); [by right |].
    by apply try_except_outcome.
  - apply (serve_handled _ 404); [by left |].
    by apply try_except_outcome.
  - apply (serve_handled _ 422); [by right |].
    by apply try_except_outcome.
Qed.

(** [get_questions] answers with 200 or 404, or ends in the [KeyError] of
    the frequency lookup. *)
Lemma get_questions_outcomes (w : World) (page_arg : option Z) :
  handled (fst (serve (get_questions page_arg) w))
  \/ fst (serve (get_questions page_arg) w) = InternalServerError KeyError.
Proof.
  unfold serve. rewrite get_questions_run.
  destruct (page_slice w _) as [| q sel]; [left; by left |].
  destruct (get_common_category _ _) as [ex | label] eqn:Hcat.
  - right. apply get_common_category_raises in Hcat. by subst.
  - left. right. right. eauto.
Qed.

(** *** The frequency lookup of [GET /questions] outside any [try] *)

(** C1 (at an input where the code departs from it): with eleven questions
    stored, page 1 is answered with the first ten and the total of eleven,
    but page 2, whose slice is the one question left, is not answered with
    that slice: the category of that question is no key of the category
    mapping, [get_common_category] raises [KeyError], and [get_questions]
    has no [except] clause around it. *)
Theorem get_questions_last_page_key_error :
  (exists ten,
     length ten = 10%nat
     /\ page_slice eleven_world 1 = ten
     /\ serve (get_questions (Some 1)) eleven_world
        = (Reply 200
             (QuestionsJson ten 11 (category_mapping eleven_world) "science"),
           eleven_world))
  /\ page_slice eleven_world 2 = [Question.format (sample_question 11 99)]
  /\ serve (get_questions (Some 2)) eleven_world
     = (InternalServerError KeyError, eleven_world).
Proof.
  split; [| split].
  - exists (page_slice eleven_world 1).
    split; [| split]; vm_compute; reflexivity.
  - vm_compute. reflexivity.
  - vm_compute. reflexivity.
Qed.

(** C4 (at an input where the code departs from it): on a store without
    questions, [POST /questions] accepts a question of category 99, which is
    no category row; from then on [GET /questions] ends in a [KeyError] that
    no handler catches, so neither 404 nor 422 is what the client gets. *)
Theorem get_questions_key_error_escapes :
  serve (add_question dangling_body) empty_world
  = (Reply 200 CreatedJson, dangling_world)
  /\ serve (get_questions None) dangling_world
     = (InternalServerError KeyError, dangling_world)
  /\ InternalServerError KeyError <> not_found
  /\ InternalServerError KeyError <> unprocessable.
Proof.
  split; [| split; [| split]]; [vm_compute; reflexivity .. | done | done].
Qed.

(** The same lookup under [POST /search] is inside a [try]: there the
    [KeyError] becomes 422. *)
Lemma query_questions_key_error_422 :
  serve (query_questions {| search_term := Some "title" |}) dangling_world
  = (unprocessable, dangling_world).
Proof. vm_compute. reflexivity. Qed.

(** ** Question deletion *)

Lemma find_none_iff (rows : list Question.t) (question_id : Z) :
  List.find (fun q => Question.id q =? question_id) rows = None
  <-> forall q, q ∈ rows -> Question.id q <> question_id.
Proof.
  induction rows as [| r rows IH]; cbn.
  - split; [| done]. intros _ q Hq. by apply elem_of_nil in Hq.
  - destruct (Z.eqb_spec (Question.id r) question_id) as [Heq | Hne].
    + split; [done |]. intros H. exfalso. apply (H r); [left | done].
    + rewrite IH. split.
      * intros H q Hq. apply elem_of_cons in Hq as [-> | Hq]; auto.
      * intros H q Hq. apply H. by right.
Qed.

(** C3: for an id that no stored question has, [DELETE /questions/id]
    answers 422 Unprocessable (the 404 that the handler raises for the failed
    lookup is caught by its own [except] clause and replaced) and leaves the
    world as it was. *)
Theorem delete_question_missing_422 (w : World) (question_id : Z) :
  (forall q, q ∈ questions (db w) -> Question.id q <> question_id) ->
  serve (delete_question question_id) w = (unprocessable, w).
Proof.
  intros Hmissing. apply find_none_iff in Hmissing.
  unfold serve, delete_question. run_handler.
  rewrite Hmissing. reflexivity.
Qed.

Lemma delete_question_missing_422_witness :
  serve (delete_question 7) small_world = (unprocessable, small_world).
Proof.
  apply (delete_question_missing_422 small_world 7).
  intros q Hq. apply list_elem_of_In in Hq. cbn in Hq.
  destruct Hq as [<- | [<- | [<- | []]]]; cbn; lia.
Defined.

(** For an id that a stored question has, the answer is a success that
    names the id, and the rows with that id are gone from the table. *)
Lemma delete_question_present (w : World) (question_id : Z) (q : Question.t) :
  q ∈ questions (db w) -> Question.id q = question_id ->
  fst (serve (delete_question question_id) w)
  = Reply 200 (DeletedJson question_id)
  /\ questions (db (snd (serve (delete_question question_id) w)))
     = List.filter (fun r => negb (Question.id r =? question_id))
         (questions (db w)).
Proof.
  intros Hin Hid. unfold serve, delete_question. run_handler.
  destruct (List.find _ (questions (db w))) as [r |] eqn:Hfind.
  - apply find_some in Hfind as [_ Hr]. apply Z.eqb_eq in Hr.
    cbn. by rewrite Hr.
  - exfalso. by apply (proj1 (find_none_iff _ _) Hfind q).
Qed.

(** ** Question creation *)

(** C6: when the body of [POST /questions] lacks one of the members question,
    answer, category and difficulty, or its question or answer is falsy
    (empty text included), the answer is 422 Unprocessable and the world, so
    the question table, is as it was. *)
Theorem add_question_invalid_422 (w : World) (json : AddBody) :
  add_question_member json = None
  \/ add_answer_member json = None
  \/ add_category_member json = None
  \/ add_difficulty_member json = None
  \/ (exists v, add_question_member json = Some v /\ truthy v = false)
  \/ (exists v, add_answer_member json = Some v /\ truthy v = false) ->
  serve (add_question json) w = (unprocessable, w).
Proof.
  intros Hbad.
  destruct json as [q a c d]. cbn in Hbad.
  unfold serve, add_question. run_handler.
  destruct q as [q |]; [| done]. cbn.
  destruct (truthy q) eqn:Hq; [| done].
  destruct a as [a |]; [| done]. cbn.
  destruct (truthy a) eqn:Ha; [| done].
  destruct c as [c |]; [| done]. cbn.
  destruct d as [d |]; [| done].
  exfalso.
  destruct Hbad as [H | [H | [H | [H | [(v & H & Hv) | (v & H & Hv)]]]]];
    congruence.
Qed.

Lemma add_question_invalid_422_witness :
  serve (add_question
           {| add_question_member := Some (VStr "");
              add_answer_member := Some (VStr "Apollo 13");
              add_category_member := Some (VInt 1);
              add_difficulty_member := Some (VInt 4) |}) small_world
  = (unprocessable, small_world).
Proof.
  apply add_question_invalid_422.
  right. right. right. right. left. exists (VStr ""). split; reflexivity.
Defined.

(** ** Question search *)

Lemma filter_none {A : Type} (f : A -> bool) (l : list A) :
  (forall x, x ∈ l -> f x = false) -> List.filter f l = [].
Proof.
  induction l as [| x l IH]; intros Hall; [done |]. cbn.
  rewrite (Hall x) by left. apply IH. intros y Hy. apply Hall. by right.
Qed.

(** [query_questions] in one equation, for a body that carries a term. *)
Lemma query_questions_run (w : World) (term : string) :
  query_questions {| search_term := Some term |} w
  = let matches :=
      map Question.format
        (List.filter
           (fun q => Sql.ilike (Question.question q) ("%" +:+ term +:+ "%"))
           (questions (db w))) in
    match get_common_category (category_mapping w) matches with
    | inr label => (inr (MatchesJson matches (length matches) label), w)
    | inl _ => (inl (HTTPException 422), w)
    end.
Proof.
  unfold query_questions, category_mapping. run_handler.
  by destruct (get_common_category _ _).
Qed.

(** When the pattern built from the search term matches the text of no
    stored question, [POST /search] answers 200 with no questions, a total of
    0 and the empty text as current category. *)
Theorem query_questions_no_match (w : World) (term : string) :
  (forall q, q ∈ questions (db w) ->
     Sql.ilike (Question.question q) ("%" +:+ term +:+ "%") = false) ->
  serve (query_questions {| search_term := Some term |}) w
  = (Reply 200 (MatchesJson [] 0 ""), w).
Proof.
  intros Hnone. unfold serve. rewrite query_questions_run.
  rewrite filter_none by done. reflexivity.
Qed.

Lemma query_questions_no_match_witness :
  serve (query_questions {| search_term := Some "penguin" |}) small_world
  = (Reply 200 (MatchesJson [] 0 ""), small_world).
Proof.
  apply (query_questions_no_match small_world "penguin").
  intros q Hq. apply list_elem_of_In in Hq. cbn in Hq.
  destruct Hq as [<- | [<- | [<- | []]]]; vm_compute; reflexivity.
Defined.

(** *** [ILIKE] against the substring test *)

Lemma lower_app (a b : string) :
  Py.lower (a +:+ b) = Py.lower a +:+ Py.lower b.
Proof. induction a as [| c a IH]; simpl; [done | by rewrite IH]. Qed.

Lemma list_ascii_of_string_app (a b : string) :
  list_ascii_of_string (a +:+ b)
  = list_ascii_of_string a ++ list_ascii_of_string b.
Proof. induction a as [| c a IH]; simpl; [done | by rewrite IH]. Qed.

Lemma lower_special (c : ascii) :
  like_special (Py.lower_ascii c) = like_special c.
Proof. destruct c as [[] [] [] [] [] [] [] []]; reflexivity. Qed.

Lemma lower_forall_special (s : string) :
  forallb (fun c => negb (like_special c)) (list_ascii_of_string (Py.lower s))
  = forallb (fun c => negb (like_special c)) (list_ascii_of_string s).
Proof.
  induction s as [| c s IH]; cbn; [done |]. by rewrite lower_special, IH.
Qed.

(** One unfolding of [like] on a pattern that starts with [%]. *)
Lemma like_percent (pattern text : list ascii) :
  Sql.like ("%"%char :: pattern) text
  = Sql.like pattern text
    || match text with
       | [] => false
       | _ :: text' => Sql.like ("%"%char :: pattern) text'
       end.
Proof. destruct text; reflexivity. Qed.

(** One unfolding of [like] on a pattern that starts with a literal. *)
Lemma like_literal (c : ascii) (pattern text : list ascii) :
  like_special c = false ->
  Sql.like (c :: pattern) text
  = match text with
    | [] => false
    | d :: text' => Ascii.eqb c d && Sql.like pattern text'
    end.
Proof.
  unfold like_special. intros Hc.
  apply orb_false_elim in Hc as [Hc Hbackslash].
  apply orb_false_elim in Hc as [Hpercent Hunderscore].
  cbn [Sql.like]. rewrite Hpercent, Hunderscore, Hbackslash. by destruct text.
Qed.

Lemma like_percent_only (text : list ascii) :
  Sql.like ["%"%char] text = true.
Proof.
  induction text as [| c text IH]; [done |].
  rewrite like_percent. rewrite IH. apply orb_true_r.
Qed.

Section LiteralTerm.

(** A search term in which no character is special to [LIKE]. *)
Variable term : list ascii.
Hypothesis term_plain :
  forallb (fun c => negb (like_special c)) term = true.

Lemma like_literal_prefix_of (suffix text : list ascii) :
  forallb (fun c => negb (like_special c)) suffix = true ->
  Sql.like (suffix ++ ["%"%char]) text = starts_with suffix text.
Proof.
  revert text. induction suffix as [| c suffix IH]; intros text Hplain.
  - cbn [app starts_with]. apply like_percent_only.
  - cbn [forallb] in Hplain. apply andb_prop in Hplain as [Hc Hplain].
    apply negb_true_iff in Hc.
    cbn [app]. rewrite like_literal by done.
    destruct text as [| d text]; [done |]. cbn [starts_with].
    by rewrite IH.
Qed.

Lemma like_literal_prefix (text : list ascii) :
  Sql.like (term ++ ["%"%char]) text = starts_with term text.
Proof. by apply like_literal_prefix_of. Qed.

(** Put between two [%], the term matches the texts in which it occurs. *)
Lemma like_literal_contains (text : list ascii) :
  Sql.like ("%"%char :: term ++ ["%"%char]) text = contains term text.
Proof.
  induction text as [| d text IH].
  - rewrite like_percent, like_literal_prefix. by destruct term.
  - rewrite like_percent, like_literal_prefix, IH. by destruct term.
Qed.

End LiteralTerm.

Lemma ilike_literal (term text : string) :
  forallb (fun c => negb (like_special c)) (list_ascii_of_string term) = true ->
  Sql.ilike text ("%" +:+ term +:+ "%") = icontains term text.
Proof.
  intros Hplain. unfold Sql.ilike, icontains.
  rewrite !lower_app, !list_ascii_of_string_app.
  change (list_ascii_of_string (Py.lower "%")) with ["%"%char].
  change (["%"%char] ++ ?l) with ("%"%char :: l).
  apply like_literal_contains. by rewrite lower_forall_special.
Qed.

(** [ILIKE] does not tell apart two terms that differ in case only. *)
Lemma ilike_case (term1 term2 text : string) :
  Py.lower term1 = Py.lower term2 ->
  Sql.ilike text ("%" +:+ term1 +:+ "%") = Sql.ilike text ("%" +:+ term2 +:+ "%").
Proof.
  intros Heq. unfold Sql.ilike. by rewrite !lower_app, Heq.
Qed.

Lemma filter_ext_bool {A : Type} (f g : A -> bool) (l : list A) :
  (forall x, f x = g x) -> List.filter f l = List.filter g l.
Proof.
  intros Hfg. induction l as [| x l IH]; [done |]. cbn.
  by rewrite Hfg, IH.
Qed.

(** Search for a term without [%], [_] and backslash: unless the frequency
    lookup fails (which gives 422), the questions of the answer are the
    stored questions in whose text the term occurs when case is ignored, all
    of them, in table order. *)
Lemma query_questions_literal_term (w : World) (term : string) :
  forallb (fun c => negb (like_special c)) (list_ascii_of_string term) = true ->
  let matches :=
    map Question.format
      (List.filter (fun q => icontains term (Question.question q))
         (questions (db w))) in
  serve (query_questions {| search_term := Some term |}) w
  = match get_common_category (category_mapping w) matches with
    | inr label => (Reply 200 (MatchesJson matches (length matches) label), w)
    | inl _ => (unprocessable, w)
    end.
Proof.
  intros Hplain matches. unfold serve. rewrite query_questions_run.
  rewrite (filter_ext_bool _
             (fun q => icontains term (Question.question q))).
  - fold matches. cbv zeta. by destruct (get_common_category _ _).
  - intros q. by apply ilike_literal.
Qed.

(** A term without [%], [_] and backslash that occurs in no question text
    is answered with the empty success. *)
Lemma query_questions_no_occurrence (w : World) (term : string) :
  forallb (fun c => negb (like_special c)) (list_ascii_of_string term) = true ->
  (forall q, q ∈ questions (db w) ->
     icontains term (Question.question q) = false) ->
  serve (query_questions {| search_term := Some term |}) w
  = (Reply 200 (MatchesJson [] 0 ""), w).
Proof.
  intros Hplain Hnone. rewrite query_questions_literal_term by done.
  cbv zeta. rewrite filter_none by done. reflexivity.
Qed.

(** Two terms that differ in case only get the same answer, ["TITLE"] and
    ["title"] for one. *)
Lemma query_questions_case (w : World) (term1 term2 : string) :
  Py.lower term1 = Py.lower term2 ->
  serve (query_questions {| search_term := Some term1 |}) w
  = serve (query_questions {| search_term := Some term2 |}) w.
Proof.
  intros Heq. unfold serve. rewrite !query_questions_run.
  rewrite (filter_ext_bool _
             (fun q => Sql.ilike (Question.question q) ("%" +:+ term2 +:+ "%"))).
  - done.
  - intros q. by apply ilike_case.
Qed.

Lemma query_questions_title (w : World) :
  serve (query_questions {| search_term := Some "TITLE" |}) w
  = serve (query_questions {| search_term := Some "title" |}) w.
Proof. by apply query_questions_case. Qed.

(** C5 (at an input where the code departs from it): the search term ["_"]
    occurs in the text of no question of the sample store, yet the answer to
    [POST /search] lists all three of them, because the term is placed in the
    [ILIKE] pattern as it is and [_] stands for any one character there. *)
Theorem query_questions_underscore_matches_all :
  (forall q, q ∈ questions (db small_world) ->
     icontains "_" (Question.question q) = false)
  /\ serve (query_questions {| search_term := Some "_" |}) small_world
     = (Reply 200
          (MatchesJson (map Question.format (questions (db small_world))) 3
             "science"), small_world).
Proof.
  split.
  - intros q Hq. apply list_elem_of_In in Hq. cbn in Hq.
    destruct Hq as [<- | [<- | [<- | []]]]; vm_compute; reflexivity.
  - vm_compute. reflexivity.
Qed.

(** C8 (at inputs where the code departs from it): the search terms ["%"]
    and ["_"] occur in the text of no question of the sample store, so they
    match zero questions, yet [POST /search] does not answer with an empty
    list, a total of 0 and the empty current category: it lists the three
    stored questions, with total 3 and current category ["science"]. *)
Theorem query_questions_wildcards_not_empty :
  (forall term q,
     term = "%"%string \/ term = "_"%string ->
     q ∈ questions (db small_world) ->
     icontains term (Question.question q) = false)
  /\ (forall term,
        term = "%"%string \/ term = "_"%string ->
        serve (query_questions {| search_term := Some term |}) small_world
        = (Reply 200
             (MatchesJson (map Question.format (questions (db small_world)))
                3 "science"), small_world)
        /\ serve (query_questions {| search_term := Some term |}) small_world
           <> (Reply 200 (MatchesJson [] 0 ""), small_world)).
Proof.
  split.
  - intros term q Hterm Hq. apply list_elem_of_In in Hq. cbn in Hq.
    destruct Hterm as [-> | ->];
      destruct Hq as [<- | [<- | [<- | []]]]; vm_compute; reflexivity.
  - intros term [-> | ->]; split; vm_compute; (reflexivity || discriminate).
Qed.

(** A backslash in the term makes the [%] that closes the pattern literal:
    a text that holds the term is then not matched unless it ends in [%]. *)
Lemma ilike_backslash_term :
  icontains "\" "AC\DC" = true
  /\ Sql.ilike "AC\DC" ("%" +:+ "\" +:+ "%") = false
  /\ Sql.ilike "100%" ("%" +:+ "\" +:+ "%") = true.
Proof. repeat split; vm_compute; reflexivity. Qed.

(** ** Questions of one category *)

Lemma categories_fold_lookup (cats : list Category.t) (d : gmap Z string)
    (k : Z) :
  match foldl (fun d cat =>
                 <[Category.id cat := Py.lower (Category.type cat)]> d)
          d cats !! k with
  | Some label =>
      (exists cat,
         cat ∈ cats /\ Category.id cat = k
         /\ label = Py.lower (Category.type cat))
      \/ ((forall cat, cat ∈ cats -> Category.id cat <> k)
          /\ d !! k = Some label)
  | None => d !! k = None /\ forall cat, cat ∈ cats -> Category.id cat <> k
  end.
Proof.
  revert d. induction cats as [| cat cats IH]; intros d; cbn [foldl].
  - destruct (d !! k) eqn:Hd.
    + right. split; [| done]. intros cat Hin. by apply elem_of_nil in Hin.
    + split; [done |]. intros cat Hin. by apply elem_of_nil in Hin.
  - specialize (IH (<[Category.id cat := Py.lower (Category.type cat)]> d)).
    destruct (foldl _ _ cats !! k) as [label |].
    + destruct IH as [(cat' & Hin & Hid & Hlabel) | [Hnone Hd]].
      * left. exists cat'. split; [by right | done].
      * destruct (decide (Category.id cat = k)) as [Heq | Hne].
        -- left. exists cat. split; [by left |]. split; [done |].
           rewrite Heq, lookup_insert_eq in Hd. congruence.
        -- right. rewrite lookup_insert_ne in Hd by done.
           split; [| done]. intros c Hc.
           apply elem_of_cons in Hc as [-> | Hc]; auto.
    + destruct IH as [Hd Hnone].
      destruct (decide (Category.id cat = k)) as [Heq | Hne].
      * rewrite Heq, lookup_insert_eq in Hd. done.
      * rewrite lookup_insert_ne in Hd by done.
        split; [done |]. intros c Hc.
        apply elem_of_cons in Hc as [-> | Hc]; auto.
Qed.

(** A key of the category mapping is the id of a category row, and its value
    is the lower-cased label of such a row; an id of no row is no key. *)
Lemma categories_dict_lookup (cats : list Category.t) (k : Z) :
  match categories_dict cats !! k with
  | Some label =>
      exists cat,
        cat ∈ cats /\ Category.id cat = k
        /\ label = Py.lower (Category.type cat)
  | None => forall cat, cat ∈ cats -> Category.id cat <> k
  end.
Proof.
  unfold categories_dict.
  pose proof (categories_fold_lookup cats ∅ k) as H.
  destruct (foldl _ _ cats !! k) as [label |].
  - destruct H as [H | [_ H]]; [done |]. by rewrite lookup_empty in H.
  - by destruct H.
Qed.

(** When no two category rows share an id, the value under an id is the
    label of the one row that has it. *)
Lemma categories_dict_unique (cats : list Category.t) (cat : Category.t) :
  NoDup (map Category.id cats) -> cat ∈ cats ->
  categories_dict cats !! Category.id cat
  = Some (Py.lower (Category.type cat)).
Proof.
  intros Hnodup Hin.
  pose proof (categories_dict_lookup cats (Category.id cat)) as Hlook.
  destruct (categories_dict cats !! Category.id cat) as [label |].
  - destruct Hlook as (cat' & Hin' & Hid & ->).
    f_equal. f_equal. f_equal.
    apply list_elem_of_lookup in Hin as [i Hi].
    apply list_elem_of_lookup in Hin' as [j Hj].
    assert (i = j) as ->.
    { eapply NoDup_lookup; [exact Hnodup | |];
        rewrite list_lookup_fmap; [rewrite Hi | rewrite Hj]; cbn;
        by rewrite ?Hid. }
    congruence.
  - exfalso. by apply (Hlook cat).
Qed.

(** The mapping is empty only when the category table is. *)
Lemma categories_dict_empty (cats : list Category.t) :
  categories_dict cats = ∅ <-> cats = [].
Proof.
  split; [| by intros ->].
  destruct cats as [| cat cats]; [done |]. intros Hempty. exfalso.
  pose proof (categories_dict_lookup (cat :: cats) (Category.id cat)) as H.
  rewrite Hempty, lookup_empty in H. apply (H cat); [left | done].
Qed.

(** [GET /categories] answers 404 when there is no category and lists the
    mapping otherwise. *)
Lemma get_available_categories_spec (w : World) :
  serve get_available_categories w
  = (match categories (db w) with
     | [] => not_found
     | _ :: _ => Reply 200 (CategoriesJson (category_mapping w))
     end, w).
Proof.
  unfold serve, get_available_categories, category_mapping. run_handler.
  destruct (decide (categories_dict (categories (db w)) = ∅)) as [He | Hne].
  - apply categories_dict_empty in He. by rewrite He.
  - destruct (categories (db w)) as [| cat cats]; [done |]. reflexivity.
Qed.

(** [get_questions_by_category] in one equation. *)
Lemma get_questions_by_category_run (w : World) (category_id : Z) :
  get_questions_by_category category_id w
  = let matches :=
      map Question.format
        (List.filter (fun q => Question.category q =? category_id)
           (questions (db w))) in
    match category_mapping w !! category_id with
    | Some label => (inr (MatchesJson matches (length matches) label), w)
    | None => (inl (HTTPException 404), w)
    end.
Proof.
  unfold get_questions_by_category, category_mapping. run_handler.
  by destruct (categories_dict _ !! _).
Qed.

(** C7: [GET /categories/id/questions] answers 404 Not Found when the id is
    no key of the category mapping, which is when no category row has it;
    when it is a key, the answer is a success with the questions of that
    category, few or none, their number, and as current category the value
    under that key, which is the lower-cased label of a category row with
    this id (of the one such row, when ids are unique). *)
Theorem get_questions_by_category_spec (w : World) (category_id : Z) :
  let matches :=
    map Question.format
      (List.filter (fun q => Question.category q =? category_id)
         (questions (db w))) in
  (category_mapping w !! category_id = None ->
   (forall cat, cat ∈ categories (db w) -> Category.id cat <> category_id)
   /\ serve (get_questions_by_category category_id) w = (not_found, w))
  /\ (forall label,
        category_mapping w !! category_id = Some label ->
        serve (get_questions_by_category category_id) w
        = (Reply 200 (MatchesJson matches (length matches) label), w)
        /\ (matches = [] ->
            serve (get_questions_by_category category_id) w
            = (Reply 200 (MatchesJson [] 0 label), w))
        /\ (exists cat,
              cat ∈ categories (db w) /\ Category.id cat = category_id
              /\ label = Py.lower (Category.type cat))
        /\ (NoDup (map Category.id (categories (db w))) ->
            forall cat,
              cat ∈ categories (db w) -> Category.id cat = category_id ->
              label = Py.lower (Category.type cat))).
Proof.
  intros matches.
  pose proof (categories_dict_lookup (categories (db w)) category_id) as Hlook.
  fold (category_mapping w) in Hlook.
  unfold serve. rewrite get_questions_by_category_run. fold matches.
  split.
  - intros Hnone. rewrite Hnone in *. by split.
  - intros label Hsome. rewrite Hsome in *. cbv zeta.
    split; [done | split; [| split; [done |]]].
    + intros ->. reflexivity.
    + intros Hnodup cat Hin Hid.
      pose proof (categories_dict_unique _ cat Hnodup Hin) as Hcat.
      fold (category_mapping w) in Hcat. congruence.
Qed.

Lemma get_questions_by_category_spec_witness :
  serve (get_questions_by_category 5) small_world = (not_found, small_world)
  /\ serve (get_questions_by_category 2) small_world
     = (Reply 200
          (MatchesJson [Question.format (sample_question 1 2)] 1 "art"),
        small_world)
  /\ serve (get_questions_by_category 2) empty_world
     = (Reply 200 (MatchesJson [] 0 "art"), empty_world).
Proof.
  split; [| split].
  - destruct (get_questions_by_category_spec small_world 5) as [Hnone _].
    apply Hnone. vm_compute. reflexivity.
  - destruct (get_questions_by_category_spec small_world 2) as [_ Hsome].
    destruct (Hsome "art"%string) as [Hserved _].
    + vm_compute. reflexivity.
    + exact Hserved.
  - destruct (get_questions_by_category_spec empty_world 2) as [_ Hsome].
    destruct (Hsome "art"%string) as (_ & Hempty & _).
    + vm_compute. reflexivity.
    + apply Hempty. reflexivity.
Defined.

(** The example of the specification: with the one category 1, labelled
    ["Science"], and one question of that category, the current category of
    [GET /categories/1/questions] is ["science"]. *)
Lemma get_questions_by_category_science :
  fst (serve (get_questions_by_category 1)
         {| db := {| questions := [sample_question 1 1];
                     questions_id_seq := 2;
                     categories := [Category.mk 1 "Science"] |};
            rng := [] |})
  = Reply 200
      (MatchesJson [Question.format (sample_question 1 1)] 1 "science").
Proof. vm_compute. reflexivity. Qed.

(** ** Quiz *)

Lemma insert_Permutation_cons {A : Type} (l : list A) (j : nat) (x y : A) :
  l !! j = Some y -> y :: <[j := x]> l ≡ₚ x :: l.
Proof.
  revert j. induction l as [| a l IH]; intros j Hj; [done |].
  destruct j as [| j]; cbn in *.
  - inversion Hj; subst. apply Permutation_swap.
  - etransitivity; [apply Permutation_swap |].
    etransitivity; [| apply Permutation_swap].
    f_equiv. by apply IH.
Qed.

Lemma swap_Permutation {A : Type} (x : list A) (i j : nat) :
  Py.swap x i j ≡ₚ x.
Proof.
  unfold Py.swap.
  destruct (x !! i) as [xi |] eqn:Hi; [| done].
  destruct (x !! j) as [xj |] eqn:Hj; [| done].
  revert i j Hi Hj. induction x as [| a l IH]; intros i j Hi Hj; [done |].
  destruct i as [| i], j as [| j]; cbn in *.
  - by inversion Hi.
  - inversion Hi; subst. by apply insert_Permutation_cons.
  - inversion Hj; subst. by apply insert_Permutation_cons.
  - f_equiv. by apply IH.
Qed.

Lemma shuffle_from_Permutation {A : Type} (i : nat) (x : list A)
    (tape : list nat) :
  fst (Py.shuffle_from i x tape) ≡ₚ x.
Proof.
  revert x tape. induction i as [| i IH]; intros x tape; [done |].
  cbn [Py.shuffle_from]. unfold Py.randbelow.
  rewrite IH. apply swap_Permutation.
Qed.

(** Whatever the generator draws, [random.shuffle] only reorders. *)
Lemma shuffle_Permutation {A : Type} (x : list A) (tape : list nat) :
  fst (Py.shuffle x tape) ≡ₚ x.
Proof. apply shuffle_from_Permutation. Qed.

(** With the draws 3, 1, 4, 1 reduced below 5, 4, 3 and 2, the list 1 to 5
    becomes [1, 3, 5, 2, 4]; the fifth draw is left on the tape. *)
Example shuffle_example :
  Py.shuffle [1; 2; 3; 4; 5] [3; 1; 4; 1; 5]%nat = ([1; 3; 5; 2; 4], [5%nat]).
Proof. reflexivity. Qed.

(** Exchanging position [i] with a position [j] at or below it puts the
    item of [j] at [i] and leaves what is above [i] alone. *)
Lemma swap_lookup_top {A : Type} (x : list A) (i j : nat) (b : A) :
  (j <= i)%nat -> (i < length x)%nat -> x !! j = Some b ->
  Py.swap x i j !! i = Some b
  /\ drop (S i) (Py.swap x i j) = drop (S i) x
  /\ length (Py.swap x i j) = length x.
Proof.
  intros Hji Hi Hj. unfold Py.swap.
  destruct (lookup_lt_is_Some_2 x i Hi) as [a Ha]. rewrite Ha, Hj.
  split; [| split].
  - destruct (decide (j = i)) as [-> | Hne].
    + rewrite list_lookup_insert_eq; [congruence |].
      rewrite length_insert. lia.
    + rewrite list_lookup_insert_ne by done.
      by rewrite list_lookup_insert_eq.
  - rewrite !drop_insert_lt by lia. done.
  - by rewrite !length_insert.
Qed.

Lemma shuffle_from_reaches {A : Type} (i : nat) (x y : list A) :
  (i < length x)%nat ->
  take (S i) x ≡ₚ take (S i) y -> drop (S i) x = drop (S i) y ->
  exists tape, fst (Py.shuffle_from i x tape) = y.
Proof.
  revert x. induction i as [| i IH]; intros x Hi Htake Hdrop.
  - exists []. cbn.
    destruct x as [| a x]; [cbn in Hi; lia |].
    destruct y as [| b y].
    + cbn in Htake. by apply Permutation_nil_r in Htake.
    + cbn in *. rewrite !take_0 in Htake.
      apply Permutation_singleton_inj in Htake.
      rewrite !drop_0 in Hdrop. congruence.
  - assert (length x = length y) as Hlen.
    { rewrite <- (take_drop (S (S i)) x), <- (take_drop (S (S i)) y).
      rewrite !length_app. apply Permutation_length in Htake. congruence. }
    destruct (lookup_lt_is_Some_2 y (S i)) as [b Hb]; [lia |].
    assert (b ∈ take (S (S i)) x) as Hin.
    { rewrite Htake. apply list_elem_of_lookup. exists (S i).
      rewrite lookup_take_lt by lia. done. }
    apply list_elem_of_lookup in Hin as [j Hj].
    assert (j < S (S i))%nat as Hjlt.
    { apply lookup_lt_Some in Hj. rewrite length_take in Hj. lia. }
    rewrite lookup_take_lt in Hj by lia.
    destruct (swap_lookup_top x (S i) j b) as (Htop & Hrest & Hlen');
      [lia | done | done |].
    destruct (IH (Py.swap x (S i) j)) as [tape Htape].
    + lia.
    + assert (take (S (S i)) (Py.swap x (S i) j) ≡ₚ take (S (S i)) y) as Hp.
      { rewrite <- Htake.
        apply (Permutation_app_inv_r (drop (S (S i)) x)).
        rewrite <- Hrest at 1. rewrite !take_drop. apply swap_Permutation. }
      rewrite (take_S_r _ (S i) b) in Hp by done.
      rewrite (take_S_r y (S i) b) in Hp by done.
      by apply Permutation_app_inv_r in Hp.
    + rewrite (drop_S _ b (S i) Htop), (drop_S y b (S i) Hb).
      congruence.
    + exists (j :: tape). cbn [Py.shuffle_from]. unfold Py.randbelow.
      cbn [hd tl]. rewrite Nat.mod_small by lia. done.
Qed.

(** Every rearrangement is the outcome of [random.shuffle] for some draws. *)
Lemma shuffle_reaches {A : Type} (x y : list A) :
  x ≡ₚ y -> exists tape, fst (Py.shuffle x tape) = y.
Proof.
  intros Hperm. unfold Py.shuffle.
  destruct x as [| a x].
  - apply Permutation_nil_l in Hperm. subst. by exists [].
  - apply shuffle_from_reaches.
    + cbn. lia.
    + pose proof (Permutation_length Hperm) as Hlen.
      rewrite !take_ge by (cbn in *; lia). done.
    + pose proof (Permutation_length Hperm) as Hlen.
      rewrite !drop_ge by (cbn in *; lia). done.
Qed.

(** The scan over rows that have all been seen finds nothing. *)
Lemma quiz_scan_all_seen (previous : gset Z) (rows : list Question.t) :
  (forall q, q ∈ rows -> Question.id q ∈ previous) ->
  quiz_scan previous rows = QuizJson None.
Proof.
  induction rows as [| r rows IH]; intros Hall; [done |]. cbn.
  destruct (decide (Question.id r ∉ previous)) as [Hnew | _].
  - exfalso. apply Hnew, Hall. by left.
  - apply IH. intros q Hq. apply Hall. by right.
Qed.

(** The scan stops at the first row that has not been seen. *)
Lemma quiz_scan_first_unseen (previous : gset Z) (rows : list Question.t) :
  (exists q, q ∈ rows /\ Question.id q ∉ previous) ->
  exists seen q rest,
    rows = seen ++ q :: rest
    /\ (forall s, s ∈ seen -> Question.id s ∈ previous)
    /\ (Question.id q ∉ previous)
    /\ quiz_scan previous rows = QuizJson (Some (Question.format q)).
Proof.
  induction rows as [| r rows IH]; intros (q & Hq & Hnew).
  - by apply elem_of_nil in Hq.
  - cbn. destruct (decide (Question.id r ∉ previous)) as [Hr | Hr].
    + exists [], r, rows. split; [done | split; [| done]].
      intros s Hs. by apply elem_of_nil in Hs.
    + destruct IH as (seen & q' & rest & -> & Hseen & Hq' & Hscan).
      { apply elem_of_cons in Hq as [-> | Hq]; [done | by exists q]. }
      exists (r :: seen), q', rest. split; [done | split; [| done]].
      intros s Hs. apply elem_of_cons in Hs as [-> | Hs]; [| by apply Hseen].
      by apply dec_stable.
Qed.

(** The candidates are the stored questions, all of them for category 0 and
    those of the category otherwise. *)
Lemma elem_of_quiz_candidates (w : World) (category_id : Z) (q : Question.t) :
  q ∈ quiz_candidates w category_id
  <-> q ∈ questions (db w)
      /\ (category_id <> 0 -> Question.category q = category_id).
Proof.
  unfold quiz_candidates.
  destruct (Z.eqb_spec category_id 0) as [-> | Hne].
  - split; [by intros H; split | by intros [H _]].
  - rewrite !list_elem_of_In, filter_In, Z.eqb_eq. split.
    + intros [H Hc]. by split.
    + intros [H Hc]. split; auto.
Qed.

(** [quiz] in one equation, for a body with both members: the world changes
    in its generator only. *)
Lemma quiz_run (w : World) (previous : list Z) (category_id : Z) :
  quiz (quiz_body previous category_id) w
  = (inr (quiz_scan (list_to_set previous)
            (fst (Py.shuffle (quiz_candidates w category_id) (rng w)))),
     {| db := db w;
        rng := snd (Py.shuffle (quiz_candidates w category_id) (rng w)) |}).
Proof.
  unfold quiz, quiz_body, quiz_candidates. run_handler.
  destruct (category_id =? 0); cbn; by destruct (Py.shuffle _ _).
Qed.

(** C2: for a quiz body with a list of previous question ids and a category
    id, the candidates being every question for id 0 and the questions of
    that category otherwise, and whatever the random generator draws: the
    shuffled order is a rearrangement of the candidates; when every candidate
    has its id among the previous ones the answer is a success with the empty
    question; otherwise the answer is a success with the first candidate of
    the shuffled order whose id is not among the previous ones, and that
    question is of the requested category when the category id is not 0.
    The tables are left as they were. *)
Theorem quiz_first_unseen (w : World) (previous : list Z) (category_id : Z) :
  let candidates := quiz_candidates w category_id in
  let shuffled := fst (Py.shuffle candidates (rng w)) in
  let served := serve (quiz (quiz_body previous category_id)) w in
  shuffled ≡ₚ candidates
  /\ db (snd served) = db w
  /\ ((forall q, q ∈ candidates -> Question.id q ∈ previous) ->
      fst served = Reply 200 (QuizJson None))
  /\ ((exists q, q ∈ candidates /\ Question.id q ∉ previous) ->
      exists seen q rest,
        shuffled = seen ++ q :: rest
        /\ (forall s, s ∈ seen -> Question.id s ∈ previous)
        /\ (Question.id q ∉ previous)
        /\ (category_id <> 0 -> Question.category q = category_id)
        /\ fst served = Reply 200 (QuizJson (Some (Question.format q)))).
Proof.
  intros candidates shuffled served.
  assert (shuffled ≡ₚ candidates) as Hperm by apply shuffle_Permutation.
  assert (served
          = (Reply 200 (quiz_scan (list_to_set previous) shuffled),
             {| db := db w; rng := snd (Py.shuffle candidates (rng w)) |}))
    as -> by (unfold served, serve; by rewrite quiz_run).
  split; [done | split; [done | split]]; cbn [fst snd].
  - intros Hall. f_equal. apply quiz_scan_all_seen.
    intros q Hq. apply elem_of_list_to_set, Hall. by rewrite <- Hperm.
  - intros (q & Hq & Hnew).
    destruct (quiz_scan_first_unseen (list_to_set previous) shuffled)
      as (seen & q' & rest & Hsplit & Hseen & Hq' & Hscan).
    { exists q. rewrite Hperm. split; [done |].
      by rewrite elem_of_list_to_set. }
    exists seen, q', rest. split; [done |].
    split; [| split; [| split]].
    + intros s Hs. apply Hseen in Hs. by rewrite elem_of_list_to_set in Hs.
    + by rewrite elem_of_list_to_set in Hq'.
    + assert (q' ∈ candidates) as Hin.
      { rewrite <- Hperm, Hsplit. apply elem_of_app. right. by left. }
      by apply elem_of_quiz_candidates in Hin as [_ Hcat].
    + by rewrite Hscan.
Qed.

Lemma quiz_first_unseen_witness :
  fst (serve (quiz (quiz_body [3; 2] 1)) small_world)
  = Reply 200 (QuizJson None)
  /\ exists q,
       (Question.id q ∉ [3]) /\ Question.category q = 1
       /\ fst (serve (quiz (quiz_body [3] 1)) small_world)
          = Reply 200 (QuizJson (Some (Question.format q))).
Proof.
  split.
  - apply (quiz_first_unseen small_world [3; 2] 1).
    intros q Hq. apply list_elem_of_In in Hq. cbn in Hq.
    apply list_elem_of_In.
    destruct Hq as [<- | [<- | []]]; cbn; auto.
  - destruct (quiz_first_unseen small_world [3] 1) as (_ & _ & _ & Hnew).
    destruct Hnew as (seen & q & rest & _ & _ & Hq & Hcat & Hserved).
    + exists (sample_question 2 1). split.
      * apply list_elem_of_In. cbn. auto.
      * intros Hin. apply list_elem_of_In in Hin. cbn in Hin.
        destruct Hin as [Hin | []]. discriminate Hin.
    + exists q. split; [done | split; [by apply Hcat | done]].
Defined.

(** Two calls with the same body can be answered with different questions:
    the answer depends on what the generator draws. *)
Lemma quiz_depends_on_draws :
  fst (serve (quiz (quiz_body [] 0)) small_world)
  = Reply 200 (QuizJson (Some (Question.format (sample_question 3 1))))
  /\ fst (serve (quiz (quiz_body [] 0))
            {| db := db small_world; rng := [0; 0]%nat |})
     = Reply 200 (QuizJson (Some (Question.format (sample_question 1 2)))).
Proof. split; vm_compute; reflexivity. Qed.

(** Each candidate that has not been seen is the answer for some draws of
    the generator. *)
Lemma quiz_any_unseen (w : World) (previous : list Z) (category_id : Z)
    (q : Question.t) :
  q ∈ quiz_candidates w category_id -> Question.id q ∉ previous ->
  exists tape,
    fst (serve (quiz (quiz_body previous category_id))
           {| db := db w; rng := tape |})
    = Reply 200 (QuizJson (Some (Question.format q))).
Proof.
  intros Hin Hnew.
  apply elem_of_Permutation in Hin as [others Hperm].
  destruct (shuffle_reaches _ _ Hperm) as [tape Htape].
  exists tape. unfold serve. rewrite quiz_run. cbn [fst respond db rng].
  change (quiz_candidates {| db := db w; rng := tape |} category_id)
    with (quiz_candidates w category_id).
  rewrite Htape. cbn [quiz_scan].
  destruct (decide (Question.id q ∉ list_to_set previous)) as [_ | Hseen];
    [done |].
  exfalso. apply Hseen. by rewrite elem_of_list_to_set.
Qed.

(** With category 0 and every stored id among the previous ones, the
    question of the answer is empty. *)
Lemma quiz_all_seen (w : World) :
  fst (serve (quiz (quiz_body (map Question.id (questions (db w))) 0)) w)
  = Reply 200 (QuizJson None).
Proof.
  unfold serve. rewrite quiz_run. cbn [fst respond]. f_equal.
  apply quiz_scan_all_seen. intros q Hq.
  rewrite shuffle_Permutation in Hq. unfold quiz_candidates in Hq. cbn in Hq.
  apply elem_of_list_to_set, list_elem_of_fmap. by exists q.
Qed.

(** * Further properties of the handlers *)

(** ** Category listing *)

Lemma lower_ascii_idem (c : ascii) :
  Py.lower_ascii (Py.lower_ascii c) = Py.lower_ascii c.
Proof. destruct c as [[] [] [] [] [] [] [] []]; reflexivity. Qed.

Lemma lower_idem (s : string) : Py.lower (Py.lower s) = Py.lower s.
Proof.
  induction s as [| c s IH]; cbn; [done |]. by rewrite lower_ascii_idem, IH.
Qed.

(** X1: [GET /categories] answers 404 when the category table is empty;
    otherwise it answers 200 with a mapping whose keys are the ids of the
    category rows and whose values are lower-case: each is the lower-cased
    label of a row with that id.  The world is only read. *)
Theorem get_available_categories_mapping (w : World) :
  snd (serve get_available_categories w) = w
  /\ (categories (db w) = [] ->
      fst (serve get_available_categories w) = not_found)
  /\ (categories (db w) <> [] ->
      fst (serve get_available_categories w)
      = Reply 200 (CategoriesJson (category_mapping w))
      /\ (forall k,
            is_Some (category_mapping w !! k)
            <-> exists cat, cat ∈ categories (db w) /\ Category.id cat = k)
      /\ forall k label,
           category_mapping w !! k = Some label ->
           Py.lower label = label
           /\ exists cat,
                cat ∈ categories (db w) /\ Category.id cat = k
                /\ label = Py.lower (Category.type cat)).
Proof.
  rewrite get_available_categories_spec. cbn [fst snd].
  split; [done | split].
  - by intros ->.
  - intros Hne. split; [by destruct (categories (db w)) | split].
    + intros k.
      pose proof (categories_dict_lookup (categories (db w)) k) as Hlook.
      fold (category_mapping w) in Hlook.
      destruct (category_mapping w !! k) as [label |]; split.
      * intros _. destruct Hlook as (cat & Hin & Hid & _). by exists cat.
      * by eexists.
      * by intros [? ?].
      * intros (cat & Hin & Hid). by apply Hlook in Hin.
    + intros k label Hlabel.
      pose proof (categories_dict_lookup (categories (db w)) k) as Hlook.
      fold (category_mapping w) in Hlook. rewrite Hlabel in Hlook.
      destruct Hlook as (cat & Hin & Hid & ->).
      split; [apply lower_idem | by exists cat].
Qed.

(** ** The most common category: what [Counter] and [most_common] yield *)

(** Counting one more item either bumps the count of its key in place or
    appends the key with count 1. *)
Lemma counter_add_spec (k : Z) (c : list (Z * nat)) :
  ((k ∉ c.*1) /\ Py.counter_add k c = c ++ [(k, 1%nat)])
  \/ (exists c1 n c2,
        c = c1 ++ (k, n) :: c2 /\ (k ∉ c1.*1)
        /\ Py.counter_add k c = c1 ++ (k, S n) :: c2).
Proof.
  induction c as [| [k' n] c IH]; cbn.
  - left. split; [apply not_elem_of_nil | done].
  - destruct (Z.eqb_spec k k') as [-> | Hne].
    + right. exists [], n, c. split; [done | split; [apply not_elem_of_nil | done]].
    + destruct IH as [[Hnew ->] | (c1 & m & c2 & -> & Hc1 & ->)].
      * left. split; [| done]. rewrite not_elem_of_cons. by split.
      * right. exists ((k', n) :: c1), m, c2.
        split; [done | split; [| done]].
        cbn. rewrite not_elem_of_cons. by split.
Qed.

Lemma count_occ_snoc (seen : list Z) (k x : Z) :
  count_occ Z.eq_dec (seen ++ [k]) x
  = (count_occ Z.eq_dec seen x + if decide (x = k) then 1 else 0)%nat.
Proof.
  rewrite count_occ_app. cbn.
  destruct (Z.eq_dec k x), (decide (x = k)); congruence || lia.
Qed.

Lemma counts_of_key (c : list (Z * nat)) (seen : list Z) (k : Z) :
  counts_of c seen -> k ∈ c.*1 <-> k ∈ seen.
Proof.
  intros [_ Hc]. rewrite list_elem_of_fmap. split.
  - intros ([k' n] & -> & Hin). apply Hc in Hin as [Hn Hpos].
    apply list_elem_of_In, (count_occ_In Z.eq_dec). cbn. lia.
  - intros Hin. apply list_elem_of_In, (count_occ_In Z.eq_dec) in Hin.
    exists (k, count_occ Z.eq_dec seen k). split; [done |].
    apply Hc. split; [done | lia].
Qed.

Lemma counts_of_add (c : list (Z * nat)) (seen : list Z) (k : Z) :
  counts_of c seen -> counts_of (Py.counter_add k c) (seen ++ [k]).
Proof.
  intros Hc. pose proof Hc as [Hnodup Hcount].
  destruct (counter_add_spec k c) as [[Hnew ->] | (c1 & n & c2 & -> & Hc1 & ->)].
  - assert (k ∉ seen) as Hseen by (by rewrite <- (counts_of_key c)).
    assert (count_occ Z.eq_dec seen k = 0%nat) as Hzero.
    { apply count_occ_not_In. by rewrite <- list_elem_of_In. }
    split.
    + rewrite fmap_app. cbn. apply NoDup_app. split; [done | split].
      * intros x Hx Hk. apply list_elem_of_singleton in Hk. by subst.
      * apply NoDup_singleton.
    + intros x m. rewrite elem_of_app, list_elem_of_singleton, Hcount.
      rewrite count_occ_snoc. destruct (decide (x = k)) as [-> | Hne].
      * rewrite Hzero. split.
        -- intros [[H1 H2] | H]; [lia |]. inversion H; subst. lia.
        -- intros [H1 H2]. right. f_equal. lia.
      * rewrite Nat.add_0_r. split.
        -- intros [H | H]; [done | congruence].
        -- by left.
  - assert ((k, n) ∈ c1 ++ (k, n) :: c2) as Hkn
      by (apply elem_of_app; right; left).
    apply Hcount in Hkn as [Hn Hpos].
    rewrite fmap_app, fmap_cons in Hnodup. cbn in Hnodup.
    apply NoDup_app in Hnodup as (Hnd1 & Hdisj & Hnd2).
    apply NoDup_cons in Hnd2 as [Hk2 Hnd2].
    split.
    + rewrite fmap_app, fmap_cons. cbn. apply NoDup_app.
      split; [done | split; [exact Hdisj |]]. by apply NoDup_cons.
    + intros x m. rewrite count_occ_snoc.
      specialize (Hcount x m).
      rewrite elem_of_app, elem_of_cons in Hcount.
      rewrite elem_of_app, elem_of_cons.
      destruct (decide (x = k)) as [-> | Hne].
      * split.
        -- intros [H | [H | H]].
           ++ exfalso. apply Hc1. apply list_elem_of_fmap. by exists (k, m).
           ++ inversion H; subst. lia.
           ++ exfalso. apply Hk2. apply list_elem_of_fmap. by exists (k, m).
        -- intros [H1 H2]. right. left. f_equal. lia.
      * rewrite Nat.add_0_r, <- Hcount. split.
        -- intros [H | [H | H]]; [by left | congruence | by right; right].
        -- intros [H | [H | H]]; [by left | congruence | by right; right].
Qed.

Lemma first_occurrence_order_add (c : list (Z * nat)) (seen : list Z)
    (k : Z) :
  counts_of c seen -> first_occurrence_order c.*1 seen ->
  first_occurrence_order (Py.counter_add k c).*1 (seen ++ [k]).
Proof.
  intros Hc Horder.
  assert (forall ks, ks = c.*1 ->
            first_occurrence_order ks (seen ++ [k])) as Hold.
  { intros ks -> c1 x c2 Hsplit.
    destruct (Horder c1 x c2 Hsplit) as (pre & post & -> & Hx & Hy).
    exists pre, (post ++ [k]). by rewrite <- app_assoc. }
  destruct (counter_add_spec k c) as [[Hnew ->] | (c1 & n & c2 & -> & Hc1 & ->)].
  - assert (k ∉ seen) as Hseen by (by rewrite <- (counts_of_key c)).
    rewrite fmap_app. cbn. intros d1 x d2 Hsplit.
    destruct d2 as [| y d2 _] using rev_ind.
    + apply app_inj_tail in Hsplit as [_ <-].
      exists seen, []. split; [done | split; [done |]].
      intros y Hy. by apply elem_of_nil in Hy.
    + rewrite app_comm_cons, app_assoc in Hsplit.
      apply app_inj_tail in Hsplit as [Hsplit <-].
      destruct (Horder d1 x d2 Hsplit) as (pre & post & -> & Hx & Hy).
      exists pre, (post ++ [k]). split; [by rewrite <- app_assoc |].
      split; [done |]. intros y Hin.
      apply elem_of_app in Hin as [Hin | Hin]; [by apply Hy |].
      apply list_elem_of_singleton in Hin as ->.
      intros Hk. apply Hseen. apply elem_of_app. by left.
  - apply Hold. by rewrite !fmap_app, !fmap_cons.
Qed.

Lemma Counter_from (keys seen : list Z) (c : list (Z * nat)) :
  counts_of c seen -> first_occurrence_order c.*1 seen ->
  counts_of (foldl (fun c k => Py.counter_add k c) c keys) (seen ++ keys)
  /\ first_occurrence_order
       (foldl (fun c k => Py.counter_add k c) c keys).*1 (seen ++ keys).
Proof.
  revert seen c. induction keys as [| k keys IH]; intros seen c Hc Horder.
  - by rewrite app_nil_r.
  - cbn [foldl]. replace (seen ++ k :: keys) with ((seen ++ [k]) ++ keys)
      by (by rewrite <- app_assoc).
    apply IH; [by apply counts_of_add | by apply first_occurrence_order_add].
Qed.

(** [Counter(keys)] holds each key of [keys] once, with its number of
    occurrences, the keys in the order of their first occurrence. *)
Lemma Counter_counts (keys : list Z) :
  counts_of (Py.Counter keys) keys
  /\ first_occurrence_order (Py.Counter keys).*1 keys.
Proof.
  apply (Counter_from keys [] []).
  - split; [constructor |]. intros k n. cbn. split.
    + intros H. by apply elem_of_nil in H.
    + intros [<- H]. lia.
  - intros c1 x c2 H. by destruct c1.
Qed.

Lemma max_by_count_first (items : list (Z * nat)) (b r : Z * nat) :
  foldl (fun best kv =>
           match best with
           | None => Some kv
           | Some b => if (snd b <? snd kv)%nat then Some kv else Some b
           end) (Some b) items = Some r ->
  (r = b /\ forall kv, kv ∈ items -> (snd kv <= snd b)%nat)
  \/ (exists l1 l2,
        items = l1 ++ r :: l2 /\ (snd b < snd r)%nat
        /\ (forall kv, kv ∈ l1 -> (snd kv < snd r)%nat)
        /\ forall kv, kv ∈ l2 -> (snd kv <= snd r)%nat).
Proof.
  revert b. induction items as [| kv items IH]; intros b; cbn [foldl].
  - intros [= <-]. left. split; [done |]. intros kv H. by apply elem_of_nil in H.
  - destruct (Nat.ltb_spec (snd b) (snd kv)) as [Hlt | Hge]; intros Hr;
      destruct (IH _ Hr) as [[-> Hall] | (l1 & l2 & -> & Hb & H1 & H2)].
    + right. exists [], items. split; [done | split; [done | split; [| done]]].
      intros x H. by apply elem_of_nil in H.
    + right. exists (kv :: l1), l2. split; [done | split; [lia | split; [| done]]].
      intros x Hx. apply elem_of_cons in Hx as [-> | Hx]; [done | by apply H1].
    + left. split; [done |]. intros x Hx.
      apply elem_of_cons in Hx as [-> | Hx]; [done | by apply Hall].
    + right. exists (kv :: l1), l2. split; [done | split; [done | split; [| done]]].
      intros x Hx. apply elem_of_cons in Hx as [-> | Hx]; [lia | by apply H1].
Qed.

(** [most_common(1)] of a counter that is not empty: the first item among
    those of greatest count. *)
Lemma most_common_1_first (c : list (Z * nat)) :
  c <> [] ->
  exists l1 r l2,
    c = l1 ++ r :: l2 /\ Py.most_common_1 c = [r]
    /\ (forall kv, kv ∈ l1 -> (snd kv < snd r)%nat)
    /\ forall kv, kv ∈ l2 -> (snd kv <= snd r)%nat.
Proof.
  destruct c as [| kv c]; [done |]. intros _.
  unfold Py.most_common_1, Py.max_by_count. cbn [foldl].
  destruct (foldl _ (Some kv) c) as [r |] eqn:Hr.
  - destruct (max_by_count_first _ _ _ Hr) as [[-> Hall] | (l1 & l2 & -> & Hb & H1 & H2)].
    + exists [], kv, c. split; [done | split; [done | split; [| done]]].
      intros x H. by apply elem_of_nil in H.
    + exists (kv :: l1), r, l2. split; [done | split; [done | split; [| done]]].
      intros x Hx. apply elem_of_cons in Hx as [-> | Hx]; [done | by apply H1].
  - pose proof (max_by_count_from c (Some kv)) as H. rewrite Hr in H.
    by destruct H.
Qed.

(** X2: on a list of questions that is not empty, [get_common_category]
    looks up, in the category mapping, a category that occurs in the
    list at least as often as every other one; of several that occur equally
    often it takes the one that occurs first in the list.  The result is the
    label under that key, or [KeyError] when it is no key. *)
Theorem get_common_category_most_frequent (cats : gmap Z string)
    (qs : list Formatted.t) :
  qs <> [] ->
  let keys := map Formatted.category qs in
  exists k,
    k ∈ keys
    /\ (forall k', (count_occ Z.eq_dec keys k' <= count_occ Z.eq_dec keys k)%nat)
    /\ (forall k', k' <> k ->
          count_occ Z.eq_dec keys k' = count_occ Z.eq_dec keys k ->
          exists pre post, keys = pre ++ k :: post /\ (k ∉ pre) /\ k' ∉ pre)
    /\ get_common_category cats qs = getitem (cats !! k).
Proof.
  intros Hne keys.
  destruct (Counter_counts keys) as [Hcounts Horder].
  pose proof Hcounts as [Hnodup Hcount].
  destruct (most_common_1_first (Py.Counter keys))
    as (l1 & [k n] & l2 & Hsplit & Hmost & Hl1 & Hl2).
  { destruct qs as [| q qs]; [done |]. intros Hnil.
    assert (Formatted.category q ∈ (Py.Counter keys).*1) as H
      by (apply Counter_keys; left).
    rewrite Hnil in H. by apply elem_of_nil in H. }
  assert ((k, n) ∈ Py.Counter keys) as Hkn
    by (rewrite Hsplit; apply elem_of_app; right; left).
  apply Hcount in Hkn as [Hn Hpos].
  assert (forall k' m, (k', m) ∈ Py.Counter keys -> (m <= n)%nat) as Hmax.
  { intros k' m Hin. rewrite Hsplit in Hin.
    apply elem_of_app in Hin as [Hin | Hin].
    - apply Hl1 in Hin. cbn in Hin. lia.
    - apply elem_of_cons in Hin as [[= -> ->] | Hin]; [done |].
      by apply Hl2 in Hin. }
  exists k. split; [| split; [| split]].
  - apply list_elem_of_In, (count_occ_In Z.eq_dec). lia.
  - intros k'. destruct (count_occ Z.eq_dec keys k') as [| m] eqn:Hk'; [lia |].
    rewrite Hn. apply (Hmax k'). apply Hcount. split; [done | lia].
  - intros k' Hneq Htie.
    assert ((k', n) ∈ Py.Counter keys) as Hin
      by (apply Hcount; split; [congruence | done]).
    rewrite Hsplit in Hin. apply elem_of_app in Hin as [Hin | Hin].
    { apply Hl1 in Hin. cbn in Hin. lia. }
    apply elem_of_cons in Hin as [[= ->] | Hin]; [done |].
    destruct (Horder l1.*1 k l2.*1) as (pre & post & Hkeys & Hk & Hafter).
    { by rewrite Hsplit, fmap_app, fmap_cons. }
    exists pre, post. split; [done | split; [done |]].
    apply Hafter. apply list_elem_of_fmap. by exists (k', n).
  - destruct qs as [| q qs]; [done |]. unfold get_common_category.
    fold keys. by rewrite Hmost.
Qed.

Lemma get_common_category_most_frequent_witness :
  exists k,
    (forall k', (count_occ Z.eq_dec [3; 1; 1; 3; 2]%Z k'
                 <= count_occ Z.eq_dec [3; 1; 1; 3; 2]%Z k)%nat)
    /\ get_common_category (category_mapping small_world)
         (map (fun c => Question.format (sample_question 1 c)) [3; 1; 1; 3; 2])
       = getitem (category_mapping small_world !! k).
Proof.
  destruct (get_common_category_most_frequent (category_mapping small_world)
              (map (fun c => Question.format (sample_question 1 c))
                 [3; 1; 1; 3; 2])) as (k & _ & Hmax & _ & Hget).
  - discriminate.
  - exists k. split; [exact Hmax | exact Hget].
Defined.

(** ** Question listing: order and coverage of the pages *)

Lemma StronglySorted_fmap_ids (rows : list Question.t) :
  StronglySorted id_le rows ->
  StronglySorted Z.le (map Formatted.id (map Question.format rows)).
Proof.
  induction 1 as [| r rows Hsorted IH Hall]; cbn; constructor; [done |].
  rewrite !Forall_fmap. eapply Forall_impl; [exact Hall |]. by intros q.
Qed.

Lemma ordered_questions_ids_sorted (w : World) :
  StronglySorted Z.le (map Formatted.id (ordered_questions w)).
Proof.
  unfold ordered_questions. apply StronglySorted_fmap_ids.
  apply StronglySorted_merge_sort; apply _.
Qed.

(** A slice is a run of consecutive items of the list it is taken from. *)
Lemma slice_run {A : Type} (l : list A) (start stop : Z) :
  exists before after, l = before ++ Py.slice l start stop ++ after.
Proof.
  unfold Py.slice.
  set (lo := Z.to_nat (Py.slice_bound _ start)).
  set (k := Z.to_nat _).
  exists (take lo l), (drop k (drop lo l)).
  by rewrite (take_drop k (drop lo l)), take_drop.
Qed.

(** Whatever the page, the questions that [get_questions] selects are
    formatted rows of the question table, they form a run of consecutive
    items of the id-ordered list, and their ids ascend. *)
Lemma page_slice_ascending (w : World) (page : Z) :
  StronglySorted Z.le (map Formatted.id (page_slice w page))
  /\ (exists before after,
        ordered_questions w = before ++ page_slice w page ++ after)
  /\ (forall q, q ∈ page_slice w page ->
        exists row, row ∈ questions (db w) /\ q = Question.format row).
Proof.
  destruct (slice_run (ordered_questions w) (page_start page) (page_end page))
    as (before & after & Hrun).
  fold (page_slice w page) in Hrun.
  split; [| split].
  - pose proof (ordered_questions_ids_sorted w) as Hsorted.
    rewrite Hrun, !fmap_app in Hsorted.
    by apply StronglySorted_app_1_r, StronglySorted_app_1_l in Hsorted.
  - by exists before, after.
  - apply elem_of_page_slice.
Qed.

(** What a 200 answer of [get_questions] is made of. *)
Lemma get_questions_answer (w : World) (page_arg : option Z)
    (qs : list Formatted.t) (total : nat) (cats : gmap Z string)
    (label : string) :
  fst (serve (get_questions page_arg) w)
  = Reply 200 (QuestionsJson qs total cats label) ->
  qs = page_slice w (default 1 page_arg) /\ qs <> []
  /\ total = length (questions (db w)) /\ cats = category_mapping w.
Proof.
  unfold serve. rewrite get_questions_run.
  destruct (page_slice w _) as [| q sel]; [done |].
  destruct (get_common_category _ _) as [ex | label'] eqn:Hcat.
  - apply get_common_category_raises in Hcat as ->. done.
  - cbn. intros [= <- <- <- <-]. by rewrite ordered_questions_length.
Qed.

(** X3: whatever the page value, positive, zero or negative, when
    [GET /questions] answers 200 the questions of the answer are not empty,
    their ids ascend, they are a run of consecutive items of the stored rows
    put in ascending order of id, and [total_questions] is the number of all
    stored questions. *)
Theorem get_questions_answer_ascending (w : World) (page_arg : option Z)
    (qs : list Formatted.t) (total : nat) (cats : gmap Z string)
    (label : string) :
  fst (serve (get_questions page_arg) w)
  = Reply 200 (QuestionsJson qs total cats label) ->
  qs <> []
  /\ StronglySorted Z.le (map Formatted.id qs)
  /\ (exists rows before after,
        rows ≡ₚ questions (db w) /\ StronglySorted id_le rows
        /\ map Question.format rows = before ++ qs ++ after)
  /\ total = length (questions (db w)).
Proof.
  intros Hanswer.
  apply get_questions_answer in Hanswer as (-> & Hne & -> & _).
  destruct (page_slice_ascending w (default 1 page_arg))
    as (Hsorted & (before & after & Hrun) & _).
  split; [done | split; [done | split; [| done]]].
  destruct (ordered_questions_sorted w) as (rows & Hrows & Hperm & Hrsorted).
  exists rows, before, after. by rewrite <- Hrows.
Qed.

Lemma get_questions_answer_ascending_witness :
  StronglySorted Z.le
    (map Formatted.id
       (map Question.format
          [sample_question 1 2; sample_question 2 1; sample_question 3 1])).
Proof.
  apply (get_questions_answer_ascending small_world (Some 1) _ 3
           (category_mapping small_world) "science").
  vm_compute. reflexivity.
Defined.

Lemma pages_concat (l : list Formatted.t) (k : nat) :
  concat (map (fun i => take 10 (drop (10 * i) l)) (seq 0 k))
  = take (10 * k) l.
Proof.
  induction k as [| k IH]; [done |].
  rewrite seq_S, map_app, concat_app, IH. cbn [map concat Nat.add].
  rewrite app_nil_r, take_take_drop. f_equal. lia.
Qed.

(** The slices of the pages 1 to [k], one after the other, are the first
    [10 * k] items of the id-ordered list, so with [10 * k] at least the
    number of stored questions they are the whole list. *)
Lemma pages_cover_questions (w : World) (k : nat) :
  concat (map (fun i => page_slice w (Z.of_nat (S i))) (seq 0 k))
  = take (10 * k) (ordered_questions w)
  /\ ((length (questions (db w)) <= 10 * k)%nat ->
      concat (map (fun i => page_slice w (Z.of_nat (S i))) (seq 0 k))
      = ordered_questions w).
Proof.
  assert (concat (map (fun i => page_slice w (Z.of_nat (S i))) (seq 0 k))
          = take (10 * k) (ordered_questions w)) as Hcat.
  { rewrite <- pages_concat. f_equal. apply map_ext. intros i.
    rewrite page_slice_positive by lia. do 2 f_equal. lia. }
  split; [done |]. intros Hall. rewrite Hcat.
  apply take_ge. rewrite ordered_questions_length. lia.
Qed.

(** X4: on a store in which the category of every question is a category
    row, the questions of the answers of [GET /questions] to the pages 1 to
    [k], one after the other (a page answered with 404 giving none), are all
    the stored questions, each once, in ascending order of id, as soon as
    [10 * k] is at least the number of stored questions. *)
Theorem get_questions_pages_cover (w : World) (k : nat) :
  (forall row, row ∈ questions (db w) ->
     is_Some (category_mapping w !! Question.category row)) ->
  (length (questions (db w)) <= 10 * k)%nat ->
  let answers :=
    concat
      (map (fun i =>
              answer_questions
                (fst (serve (get_questions (Some (Z.of_nat (S i)))) w)))
         (seq 0 k)) in
  answers ≡ₚ map Question.format (questions (db w))
  /\ StronglySorted Z.le (map Formatted.id answers).
Proof.
  intros Hkeys Hall answers.
  assert (answers = ordered_questions w) as ->.
  { destruct (pages_cover_questions w k) as [_ Hcover].
    rewrite <- (Hcover Hall). unfold answers. f_equal.
    apply map_ext. intros i.
    destruct (page_slice w (Z.of_nat (S i))) as [| q sel] eqn:Hslice.
    - unfold serve. rewrite get_questions_run.
      change (default 1 (Some ?p)) with p. by rewrite Hslice.
    - destruct (get_questions_page_integrity w (Z.of_nat (S i)) Hkeys)
        as [label Hserved]; [lia | by rewrite Hslice |].
      rewrite Hserved, Hslice. reflexivity. }
  split.
  - unfold ordered_questions.
    apply fmap_Permutation, merge_sort_Permutation.
  - apply ordered_questions_ids_sorted.
Qed.

Lemma get_questions_pages_cover_witness :
  map Formatted.id
    (concat
       (map (fun i =>
               answer_questions
                 (fst (serve (get_questions (Some (Z.of_nat (S i))))
                         twelve_world)))
          (seq 0 3)))
  = [1; 2; 3; 4; 5; 6; 7; 8; 9; 10; 11; 12]
  /\ StronglySorted Z.le
       (map Formatted.id
          (concat
             (map (fun i =>
                     answer_questions
                       (fst (serve (get_questions (Some (Z.of_nat (S i))))
                               twelve_world)))
                (seq 0 3)))).
Proof.
  split; [vm_compute; reflexivity |].
  apply (get_questions_pages_cover twelve_world 3).
  - intros row Hrow. apply list_elem_of_In in Hrow. cbn in Hrow.
    repeat (destruct Hrow as [<- | Hrow]; [by eexists |]). done.
  - cbn. lia.
Defined.

(** X5: on a store in which the category of every question is a category
    row, [GET /questions] answers every page from 1 on whose slice is not
    empty with that slice, which is the next ten questions in id order or
    those that are left, and with the number of all stored questions; the
    slice holds ten questions whenever the page after it is not empty. *)
Theorem get_questions_pages_with_integrity (w : World) (page : Z) :
  (forall row, row ∈ questions (db w) ->
     is_Some (category_mapping w !! Question.category row)) ->
  1 <= page ->
  page_slice w page <> [] ->
  exists label,
    serve (get_questions (Some page)) w
    = (Reply 200
         (QuestionsJson (page_slice w page) (length (questions (db w)))
            (category_mapping w) label), w)
    /\ page_slice w page
       = take 10 (drop (Z.to_nat ((page - 1) * 10)) (ordered_questions w))
    /\ (length (page_slice w page) <= 10)%nat
    /\ (page_slice w (page + 1) <> [] -> length (page_slice w page) = 10%nat).
Proof.
  intros Hkeys Hp Hne.
  destruct (get_common_category_total (category_mapping w)
              (page_slice w page)) as [label Hlabel].
  - intros q Hq. apply elem_of_page_slice in Hq as (row & Hrow & ->).
    by apply Hkeys.
  - exists label. by apply get_questions_page.
Qed.

Lemma get_questions_pages_with_integrity_witness :
  exists label,
    serve (get_questions (Some 2)) twelve_world
    = (Reply 200
         (QuestionsJson (page_slice twelve_world 2) 12
            (category_mapping twelve_world) label), twelve_world)
    /\ map Formatted.id (page_slice twelve_world 2) = [11; 12].
Proof.
  destruct (get_questions_pages_with_integrity twelve_world 2)
    as (label & Hserved & _).
  - intros row Hrow. apply list_elem_of_In in Hrow. cbn in Hrow.
    repeat (destruct Hrow as [<- | Hrow]; [by eexists |]). done.
  - lia.
  - vm_compute. discriminate.
  - exists label. split; [exact Hserved | vm_compute; reflexivity].
Defined.

(** ** Status codes and the world *)

(** X6: the status codes of each route.  [DELETE /questions/id],
    [POST /questions], [POST /search] and [POST /quizzes] answer 200 or 422
    and nothing else, so never 404; [GET /categories] and
    [GET /categories/id/questions] answer 200 or 404 and nothing else, so
    never 422; [GET /questions] answers 200 or 404, never 422, or ends in
    the [KeyError] of the frequency lookup, which no handler catches. *)
Theorem status_codes_by_route (w : World) :
  (forall question_id,
     fst (serve (delete_question question_id) w) = unprocessable
     \/ exists body, fst (serve (delete_question question_id) w)
                     = Reply 200 body)
  /\ (forall json,
        fst (serve (add_question json) w) = unprocessable
        \/ exists body, fst (serve (add_question json) w) = Reply 200 body)
  /\ (forall json,
        fst (serve (query_questions json) w) = unprocessable
        \/ exists body, fst (serve (query_questions json) w) = Reply 200 body)
  /\ (forall json,
        fst (serve (quiz json) w) = unprocessable
        \/ exists body, fst (serve (quiz json) w) = Reply 200 body)
  /\ (fst (serve get_available_categories w) = not_found
      \/ exists body, fst (serve get_available_categories w) = Reply 200 body)
  /\ (forall category_id,
        fst (serve (get_questions_by_category category_id) w) = not_found
        \/ exists body,
             fst (serve (get_questions_by_category category_id) w)
             = Reply 200 body)
  /\ (forall page_arg,
        fst (serve (get_questions page_arg) w) = not_found
        \/ fst (serve (get_questions page_arg) w) = InternalServerError KeyError
        \/ exists body, fst (serve (get_questions page_arg) w) = Reply 200 body).
Proof.
  assert (forall (body : M Json) handler code,
            (forall ex w', handler ex w' = (inl (HTTPException code), w')) ->
            fst (serve (try_except body handler) w)
            = respond (inl (HTTPException code))
            \/ exists b, fst (serve (try_except body handler) w) = Reply 200 b)
    as Htry.
  { intros body handler code Hhandler. unfold serve.
    destruct (try_except_outcome body handler code w Hhandler) as [[b Hb] | Hb];
      destruct (try_except body handler w) as [out w']; cbn in *; subst.
    - right. by exists b.
    - by left. }
  split; [| split; [| split; [| split; [| split; [| split]]]]]; intros.
  - by apply (Htry _ _ 422).
  - by apply (Htry _ _ 422).
  - by apply (Htry _ _ 422).
  - by apply (Htry _ _ 422).
  - rewrite get_available_categories_spec.
    destruct (categories (db w)); [by left | right; by eexists].
  - by apply (Htry _ _ 404).
  - unfold serve. rewrite get_questions_run.
    destruct (page_slice w _) as [| q sel]; [by left |].
    destruct (get_common_category _ _) as [ex | label] eqn:Hcat.
    + apply get_common_category_raises in Hcat. subst. right. by left.
    + right. right. by eexists.
Qed.

Lemma add_question_quiet (json : AddBody) : quiet_on_error (add_question json).
Proof.
  intros w. unfold serve, add_question. run_handler.
  destruct json as [[q |] [a |] [c |] [d |]]; cbn;
    repeat (match goal with
            | |- context [truthy ?v] => destruct (truthy v)
            end; cbn); try done.
  unfold Question_insert. cbn.
  destruct q, a, c, d; cbn; try done.
  all: intros H; exfalso; by eapply H.
Qed.

Lemma delete_question_quiet (question_id : Z) :
  quiet_on_error (delete_question question_id).
Proof.
  intros w. unfold serve, delete_question. run_handler.
  destruct (List.find _ _); cbn; [| done].
  intros H. exfalso. by eapply H.
Qed.

(** X7: which requests can change the world.  The four handlers that only
    query ([GET /categories], [GET /questions], [POST /search] and
    [GET /categories/id/questions]) leave it as it is, whatever they answer;
    [POST /quizzes] never changes the tables, and leaves the random generator
    alone too when it answers 422; [POST /questions] and
    [DELETE /questions/id] change nothing unless they answer 200. *)
Theorem world_changes_by_route :
  reads_only get_available_categories
  /\ (forall page_arg, reads_only (get_questions page_arg))
  /\ (forall json, reads_only (query_questions json))
  /\ (forall category_id, reads_only (get_questions_by_category category_id))
  /\ (forall json w, db (snd (serve (quiz json) w)) = db w)
  /\ (forall json, quiet_on_error (quiz json))
  /\ (forall json, quiet_on_error (add_question json))
  /\ (forall question_id, quiet_on_error (delete_question question_id)).
Proof.
  split; [| split; [| split; [| split; [| split; [| split; [| split]]]]]].
  - intros w. by rewrite get_available_categories_spec.
  - intros page_arg w. unfold serve. rewrite get_questions_run.
    destruct (page_slice w _); [done |].
    by destruct (get_common_category _ _).
  - intros [[term |]] w; [| done]. unfold serve.
    rewrite query_questions_run. cbv zeta.
    by destruct (get_common_category _ _).
  - intros category_id w. unfold serve.
    rewrite get_questions_by_category_run. cbv zeta.
    by destruct (category_mapping w !! category_id).
  - intros [[previous |] [[[category_id |]] |]] w; try done.
    fold (quiz_body previous category_id). unfold serve.
    by rewrite quiz_run.
  - intros [[previous |] [[[category_id |]] |]] w; try done.
    fold (quiz_body previous category_id). unfold serve.
    rewrite quiz_run. cbn. intros H. exfalso. by eapply H.
  - apply add_question_quiet.
  - apply delete_question_quiet.
Qed.

(** X8: a body that lacks a member which the handler reads is answered with
    422 and changes nothing: [search_term] for [POST /search];
    [previous_questions], [quiz_category] or the [id] of [quiz_category] for
    [POST /quizzes], where the random generator is not even consulted. *)
Theorem missing_member_422 (w : World) (json : QuizBody) :
  previous_questions json = None
  \/ quiz_category json = None
  \/ (exists category,
        quiz_category json = Some category
        /\ quiz_category_id category = None) ->
  serve (quiz json) w = (unprocessable, w)
  /\ serve (query_questions {| search_term := None |}) w = (unprocessable, w).
Proof.
  intros Hmissing. split; [| done].
  destruct json as [[previous |] [[[category_id |]] |]]; try done.
  exfalso. cbn in Hmissing.
  destruct Hmissing as [H | [H | (category & H & Hid)]]; try done.
  inversion H; subst. done.
Qed.

Lemma missing_member_422_witness :
  serve (quiz {| previous_questions := Some [1];
                 quiz_category := Some {| quiz_category_id := None |} |})
    small_world
  = (unprocessable, small_world).
Proof.
  apply (missing_member_422 small_world
           {| previous_questions := Some [1];
              quiz_category := Some {| quiz_category_id := None |} |}).
  right. right. by eexists.
Defined.

(** ** Question search: what a term selects *)

Lemma serve_query_questions (w : World) (term : string) :
  serve (query_questions {| search_term := Some term |}) w
  = (search_answer w
       (List.filter
          (fun q => Sql.ilike (Question.question q) ("%" +:+ term +:+ "%"))
          (questions (db w))), w).
Proof.
  unfold serve, search_answer. rewrite query_questions_run. cbv zeta.
  by destruct (get_common_category _ _).
Qed.




(** X10: [POST /search] ignores case: two terms with the same lower-case
    form get the same answer, on every store. *)
Theorem search_ignores_case (w : World) (term1 term2 : string) :
  Py.lower term1 = Py.lower term2 ->
  serve (query_questions {| search_term := Some term1 |}) w
  = serve (query_questions {| search_term := Some term2 |}) w.
Proof.
  intros Heq. rewrite !serve_query_questions. do 2 f_equal.
  apply filter_ext_bool. intros q. by apply ilike_case.
Qed.

Lemma search_ignores_case_witness :
  serve (query_questions {| search_term := Some "TITLE" |}) small_world
  = serve (query_questions {| search_term := Some "title" |}) small_world.
Proof. apply search_ignores_case. reflexivity. Defined.

Lemma like_percents (pattern text : list ascii) :
  forallb (Ascii.eqb "%") pattern = true -> pattern <> [] ->
  Sql.like pattern text = true.
Proof.
  induction pattern as [| p pattern IH]; [done |]. intros Hall _.
  cbn [forallb] in Hall. apply andb_prop in Hall as [Hp Hall].
  apply Ascii.eqb_eq in Hp as <-.
  destruct pattern as [| p' pattern]; [apply like_percent_only |].
  rewrite like_percent, IH by done. done.
Qed.

(** X11: the empty search term, and a term made of [%] signs only, select
    every stored question: the pattern is then a run of [%], which matches
    any text. *)
Theorem search_empty_term_selects_all (w : World) (term : string) :
  forallb (Ascii.eqb "%") (list_ascii_of_string term) = true ->
  serve (query_questions {| search_term := Some term |}) w
  = (search_answer w (questions (db w)), w).
Proof.
  intros Hpercent. rewrite serve_query_questions. do 2 f_equal.
  assert (forall q : Question.t,
            Sql.ilike (Question.question q) ("%" +:+ term +:+ "%") = true)
    as Hall.
  { intros q. unfold Sql.ilike. apply like_percents; [| done].
    rewrite !lower_app, !list_ascii_of_string_app. cbn [app].
    change (list_ascii_of_string (Py.lower "%")) with ["%"%char].
    cbn [forallb app]. rewrite forallb_app. cbn.
    rewrite andb_true_r.
    clear -Hpercent. induction term as [| c term IH]; [done |].
    cbn [list_ascii_of_string forallb Py.lower] in *.
    apply andb_prop in Hpercent as [Hc Hrest].
    apply Ascii.eqb_eq in Hc as <-. by rewrite IH. }
  induction (questions (db w)) as [| q rows IH]; [done |].
  cbn. by rewrite Hall, IH.
Qed.

Lemma search_empty_term_selects_all_witness :
  serve (query_questions {| search_term := Some "" |}) small_world
  = (search_answer small_world (questions (db small_world)), small_world).
Proof. apply search_empty_term_selects_all. reflexivity. Defined.

(** ** Quiz: the possible answers *)

(** X12: the answers that [POST /quizzes] can give to a body with both
    members.  Whatever the generator draws, the answer is 200 with either the
    empty question, and then every candidate has been seen, or a candidate
    that has not been seen; and each candidate that has not been seen is the
    answer for some draws. *)
Theorem quiz_possible_answers (w : World) (previous : list Z)
    (category_id : Z) :
  (forall tape,
     let answer :=
       fst (serve (quiz (quiz_body previous category_id))
              {| db := db w; rng := tape |}) in
     (answer = Reply 200 (QuizJson None)
      /\ forall q, q ∈ quiz_candidates w category_id ->
                   Question.id q ∈ previous)
     \/ exists q,
          q ∈ quiz_candidates w category_id /\ (Question.id q ∉ previous)
          /\ answer = Reply 200 (QuizJson (Some (Question.format q))))
  /\ (forall q,
        q ∈ quiz_candidates w category_id -> Question.id q ∉ previous ->
        exists tape,
          fst (serve (quiz (quiz_body previous category_id))
                 {| db := db w; rng := tape |})
          = Reply 200 (QuizJson (Some (Question.format q)))).
Proof.
  split; [| intros q; apply quiz_any_unseen].
  intros tape answer. unfold answer, serve. rewrite quiz_run.
  cbn [fst respond db rng].
  change (quiz_candidates {| db := db w; rng := tape |} category_id)
    with (quiz_candidates w category_id).
  set (shuffled := fst (Py.shuffle (quiz_candidates w category_id) tape)).
  assert (shuffled ≡ₚ quiz_candidates w category_id) as Hperm
    by apply shuffle_Permutation.
  destruct (decide (Forall (fun q => Question.id q ∈ previous) shuffled))
    as [Hall | Hsome].
  - left. rewrite Forall_forall in Hall. split.
    + f_equal. apply quiz_scan_all_seen. intros q Hq.
      apply elem_of_list_to_set. by apply Hall.
    + intros q Hq. apply Hall. by rewrite Hperm.
  - right. apply not_Forall_Exists in Hsome; [| apply _].
    apply Exists_exists in Hsome as (q & Hq & Hnew).
    destruct (quiz_scan_first_unseen (list_to_set previous) shuffled)
      as (seen & q' & rest & Hsplit & _ & Hq' & Hscan).
    { exists q. split; [done |]. by rewrite elem_of_list_to_set. }
    exists q'. split; [| split].
    + rewrite <- Hperm, Hsplit. apply elem_of_app. right. by left.
    + by rewrite elem_of_list_to_set in Hq'.
    + by rewrite Hscan.
Qed.

(** ** Deleting, then listing *)

Lemma same_id_same_row (rows : list Question.t) (r q : Question.t) :
  NoDup (map Question.id rows) -> r ∈ rows -> q ∈ rows ->
  Question.id r = Question.id q -> r = q.
Proof.
  intros Hnodup Hr Hq Hid.
  apply list_elem_of_lookup in Hr as [i Hi].
  apply list_elem_of_lookup in Hq as [j Hj].
  assert (i = j) as ->; [| congruence].
  eapply NoDup_lookup; [exact Hnodup | |];
    rewrite list_lookup_fmap; [rewrite Hi | rewrite Hj]; cbn;
    by rewrite ?Hid.
Qed.

Lemma filter_other_ids (rows : list Question.t) (q : Question.t) :
  NoDup (map Question.id rows) -> q ∈ rows ->
  rows ≡ₚ q :: List.filter (fun r => negb (Question.id r =? Question.id q))
                rows.
Proof.
  induction rows as [| r rows IH]; intros Hnodup Hq.
  - by apply elem_of_nil in Hq.
  - cbn in Hnodup. apply NoDup_cons in Hnodup as [Hr Hnodup]. cbn.
    apply elem_of_cons in Hq as [-> | Hq].
    + rewrite Z.eqb_refl. cbn. f_equiv.
      assert (List.filter (fun r0 => negb (Question.id r0 =? Question.id r)) rows
              = rows) as ->; [| done].
      clear IH Hnodup. induction rows as [| x rows IH]; [done |]. cbn.
      rewrite fmap_cons, not_elem_of_cons in Hr. destruct Hr as [Hne Hr].
      destruct (Z.eqb_spec (Question.id x) (Question.id r)); [congruence |].
      cbn. by rewrite IH.
    + destruct (Z.eqb_spec (Question.id r) (Question.id q)) as [Heq | Hne].
      * exfalso. apply Hr. rewrite Heq. apply list_elem_of_fmap. by exists q.
      * cbn. rewrite (IH Hnodup Hq) at 1. apply Permutation_swap.
Qed.

(** X14: deleting a stored question, on a store whose question ids are
    distinct ([Question.delete] removing the row, as the data model has it):
    the answer is 200 with the id; the table afterwards is the table before
    without that one row, the other rows in the order they had, so the
    listing counts one question less; the categories are untouched; and a
    second [DELETE] of the same id is answered with 422. *)
Theorem delete_question_removes_row (w : World) (q : Question.t) :
  NoDup (map Question.id (questions (db w))) ->
  q ∈ questions (db w) ->
  let served := serve (delete_question (Question.id q)) w in
  let w' := snd served in
  fst served = Reply 200 (DeletedJson (Question.id q))
  /\ questions (db w) ≡ₚ q :: questions (db w')
  /\ questions (db w') `sublist_of` questions (db w)
  /\ (q ∉ questions (db w'))
  /\ length (ordered_questions w) = S (length (ordered_questions w'))
  /\ categories (db w') = categories (db w)
  /\ serve (delete_question (Question.id q)) w' = (unprocessable, w').
Proof.
  intros Hnodup Hq served w'.
  destruct (delete_question_present w (Question.id q) q Hq eq_refl)
    as [Hanswer Hrows].
  fold served in Hanswer, Hrows. fold w' in Hrows.
  assert (questions (db w) ≡ₚ q :: questions (db w')) as Hperm
    by (rewrite Hrows; by apply filter_other_ids).
  assert (forall r, r ∈ questions (db w') -> Question.id r <> Question.id q)
    as Hgone.
  { intros r Hr. rewrite Hrows in Hr.
    apply list_elem_of_In, filter_In in Hr as [_ Hr].
    apply negb_true_iff, Z.eqb_neq in Hr. done. }
  split; [done | split; [done | split; [| split; [| split; [| split]]]]].
  - rewrite Hrows. clear. induction (questions (db w)) as [| r rows IH];
      [done |]. cbn. destruct (negb _); by constructor.
  - intros Hin. by apply (Hgone q).
  - rewrite !ordered_questions_length. apply Permutation_length in Hperm.
    exact Hperm.
  - unfold w', served, serve, delete_question. run_handler.
    by destruct (List.find _ _).
  - pose proof (proj2 (find_none_iff _ _) Hgone) as Hfind.
    unfold serve, delete_question. run_handler. by rewrite Hfind.
Qed.

Lemma delete_question_removes_row_witness :
  fst (serve (delete_question 1) small_world) = Reply 200 (DeletedJson 1)
  /\ map Question.id
       (questions (db (snd (serve (delete_question 1) small_world))))
     = [3; 2].
Proof.
  destruct (delete_question_removes_row small_world (sample_question 1 2))
    as (Hanswer & _).
  - vm_compute. repeat constructor; intros H;
      repeat (apply elem_of_cons in H as [H | H]; [discriminate H |]);
      by apply elem_of_nil in H.
  - apply list_elem_of_In. cbn. auto.
  - split; [exact Hanswer | vm_compute; reflexivity].
Defined.

(** ** Quiz: the previous questions as a set *)

(** X16: [POST /quizzes] takes [previous_questions] as a set: two lists with
    the same members, in whatever order and however often repeated, get the
    same answer and leave the same world, for every draw of the generator. *)
Theorem quiz_previous_as_set (w : World) (previous1 previous2 : list Z)
    (category_id : Z) :
  (forall question_id, question_id ∈ previous1 <-> question_id ∈ previous2) ->
  serve (quiz (quiz_body previous1 category_id)) w
  = serve (quiz (quiz_body previous2 category_id)) w.
Proof.
  intros Hsame. unfold serve. rewrite !quiz_run.
  assert (list_to_set previous1 =@{gset Z} list_to_set previous2) as ->;
    [| done].
  apply set_eq. intros x. by rewrite !elem_of_list_to_set.
Qed.

Lemma quiz_previous_as_set_witness :
  serve (quiz (quiz_body [3; 1; 3] 0)) small_world
  = serve (quiz (quiz_body [1; 3] 0)) small_world.
Proof.
  apply quiz_previous_as_set. intros x.
  rewrite !elem_of_cons. tauto.
Defined.
